(** * Pic2Product: catalog index, cache protocol and ranking

    A shallow embedding of [mvp_reco.py] and [api.py]:
    - [cos_sim], [load_catalog] (mvp_reco.py);
    - the module-level [state] object, [_save_cache], [_try_load_cache],
      [_build_catalog], [catalog_query] and [recommend] (api.py).

    Python exceptions are values of [exn]; code that mutates [state] and may
    raise lives in the monad [M], in which the store survives a raise, as it
    does in Python. *)

From Stdlib Require Import ZArith QArith Qabs Ascii String.
From Stdlib Require Import Floats.SpecFloat.
From stdpp Require Import base tactics option list gmap strings pretty.
From Stdlib Require Import Sorted Permutation.

Local Open Scope Z_scope.

(** ** Scalars

    numpy arithmetic is IEEE 754 arithmetic at the dtype of the arrays.
    The operations the code uses are collected in a class, so that the
    development holds for any dtype; [binary32] and [binary64] below are
    the executable instances. *)

Class Scalar (F : Type) := {
  fzero : F;
  fone : F;
  feps : F;                      (* the literal 1e-8 *)
  fadd : F → F → F;
  fsub : F → F → F;
  fmul : F → F → F;
  fdiv : F → F → F;
  fsqrt : F → F;
  fneg : F → F;
  flt : F → F → bool;           (* IEEE [<] *)
  fisnan : F → bool;
}.

(** The order numpy sorts by: IEEE [<], with NaN after everything else
    (npysort's [LT(a, b) = a < b || (b != b && a == a)]). *)
Definition sort_lt `{Scalar F} (a b : F) : bool :=
  flt a b || (fisnan b && negb (fisnan a)).

(** What the ranking proofs need of the arithmetic: negation reverses [<]. *)
Class ScalarOrder (F : Type) `{Scalar F} := {
  flt_fneg : ∀ x y : F, flt (fneg x) (fneg y) = flt y x;
}.

Module IEEE.
(** IEEE 754 binary formats from [SpecFloat]: a float is a [spec_float],
    every operation rounds to nearest even at precision [prec] with
    exponent bound [emax]. *)
Section Format.
Variables prec emax : Z.

Definition of_Z (z : Z) : spec_float := binary_normalize prec emax z 0 false.

Definition is_nan (x : spec_float) : bool :=
  match x with S754_nan => true | _ => false end.

Definition scalar : Scalar spec_float := {|
  fzero := S754_zero false;
  fone := of_Z 1;
  feps := SFdiv prec emax (of_Z 1) (of_Z 100000000);
  fadd := SFadd prec emax;
  fsub := SFsub prec emax;
  fmul := SFmul prec emax;
  fdiv := SFdiv prec emax;
  fsqrt := SFsqrt prec emax;
  fneg := SFopp;
  flt := SFltb;
  fisnan := is_nan;
|}.
End Format.

Definition binary32 : Scalar spec_float := scalar 24 128.
Definition binary64 : Scalar spec_float := scalar 53 1024.

(** The rational a float denotes (0 for the non-finite values). *)
Definition to_Q (x : spec_float) : Q :=
  match x with
  | S754_finite s m e =>
      let v := match e with
               | Z0 => inject_Z (Zpos m)
               | Zpos p => inject_Z (Zpos m * 2 ^ Zpos p)
               | Zneg p => Qmake (Zpos m) (2 ^ p)%positive
               end in
      if s then Qopp v else v
  | _ => 0%Q
  end.

Definition is_finite (x : spec_float) : bool :=
  match x with S754_finite _ _ _ | S754_zero _ => true | _ => false end.
End IEEE.

(** ** Arrays

    A 1-D array is a list of scalars. An [ndarray] is what [state.img_embs]
    can hold: a 1-D array or a 2-D array of shape [(length rows, D)]. *)

Inductive exn :=
  | RuntimeError (msg : string)
  | FileNotFoundError
  | KeyError (key : string)
  | TypeError
  | ValueError
  | IndexError
  | AxisError
  | AttributeError
  | ExternalError.               (* raised inside a collaborator *)

Inductive result (A : Type) :=
  | Ok (a : A)
  | Raise (e : exn).
Arguments Ok {A} a.
Arguments Raise {A} e.

#[global] Instance result_ret : MRet result := λ A a, Ok a.
#[global] Instance result_bind : MBind result := λ A B k r,
  match r with Ok a => k a | Raise e => Raise e end.

Section Arrays.
Context {F : Type} `{Scalar F}.

Inductive ndarray :=
  | Vec1 (v : list F)
  | Mat (D : nat) (rows : list (list F)).

(** [a.shape[0]] *)
Definition shape0 (a : ndarray) : nat :=
  match a with Vec1 v => length v | Mat _ rows => length rows end.

(** [a.shape[1]]: IndexError on a 1-D array. *)
Definition shape1 (a : ndarray) : result nat :=
  match a with Vec1 _ => Raise IndexError | Mat D _ => Ok D end.

(** A 2-D array is rectangular. *)
Definition wf_ndarray (a : ndarray) : Prop :=
  match a with Vec1 _ => True | Mat D rows => Forall (λ r, length r = D) rows end.

(** [np.vstack] of a list of 1-D arrays: ValueError on an empty list or
    on rows of different lengths. *)
Definition vstack (vs : list (list F)) : result ndarray :=
  match vs with
  | [] => Raise ValueError
  | v :: _ =>
      if forallb (λ r, Nat.eqb (length r) (length v)) vs
      then Ok (Mat (length v) vs)
      else Raise ValueError
  end.

(** Sum of the products, accumulated from the left. *)
Definition dot (x y : list F) : F :=
  fold_left fadd (zip_with fmul x y) fzero.

(** [np.linalg.norm(a)] for 1-D [a]: [sqrt(dot(a, a))]. *)
Definition norm (x : list F) : F := fsqrt (dot x x).

(** [b @ a] for 2-D [b] of shape [(N, D)] and 1-D [a]: ValueError unless
    [a] has length [D]. *)
Definition matvec (D : nat) (rows : list (list F)) (a : list F) : result (list F) :=
  if Nat.eqb (length a) D then Ok (map (λ r, dot r a) rows) else Raise ValueError.

(** [np.linalg.norm(b, axis=1)] for 2-D [b]. *)
Definition norm_axis1 (rows : list (list F)) : list F := map norm rows.

(** mvp_reco.py:154
    [return (b @ a) / (np.linalg.norm(b, axis=1) * np.linalg.norm(a) + 1e-8)]
    for 1-D [a]. A 1-D [b] makes [norm(b, axis=1)] raise AxisError (the
    product [b @ a] is evaluated first and raises ValueError on a length
    mismatch). *)
Definition cos_sim (a : list F) (b : ndarray) : result (list F) :=
  match b with
  | Vec1 v =>
      if Nat.eqb (length v) (length a) then Raise AxisError else Raise ValueError
  | Mat D rows =>
      num ← matvec D rows a;
      let den := map (λ n, fadd (fmul n (norm a)) feps) (norm_axis1 rows) in
      Ok (zip_with fdiv num den)
  end.
End Arrays.
Arguments ndarray F : clear implicits.


Section CosRow.
Context {F : Type} `{Scalar F}.

(** The similarity of one bank row [r] to the query [a]:
    [dot(r, a) / (‖r‖ * ‖a‖ + 1e-8)]. *)
Definition cos_row (a r : list F) : F :=
  fdiv (dot r a) (fadd (fmul (norm r) (norm a)) feps).
End CosRow.

(** The unit test's input, [cos_sim([1,0], [[1,0],[1,1]])], at dtype float32. *)
Module CosSimExample.
Import IEEE.
Definition f32 (z : Z) : spec_float := of_Z 24 128 z.
Definition query : list spec_float := [f32 1; f32 0].
Definition bank : ndarray spec_float := Mat 2 [[f32 1; f32 0]; [f32 1; f32 1]].

(** [|x - 1/√2| < tol], stated on rationals: [x - tol < 1/√2 < x + tol]
    compares squares with 1/2. *)
Definition near_rsqrt2 (x tol : Q) : Prop :=
  (0 < x - tol ∧ (x - tol) * (x - tol) < 1 # 2 ∧ 1 # 2 < (x + tol) * (x + tol))%Q.

Definition near (x y tol : Q) : Prop := (Qabs (x - y) < tol)%Q.

(** [1 / np.sqrt(2)] evaluated in float64, as the unit test does. *)
Definition rsqrt2_f64 : spec_float :=
  @fdiv _ binary64 (of_Z 53 1024 1) (@fsqrt _ binary64 (of_Z 53 1024 2)).

(** [abs(x - y) < 5e-7] evaluated in float64 (a float32 is a float64);
    [assertAlmostEqual(x, y, places=6)] asks for this. *)
Definition close_f64 (x y : spec_float) : bool :=
  SFltb (SFabs (@fsub _ binary64 x y))
        (@fdiv _ binary64 (of_Z 53 1024 5) (of_Z 53 1024 10000000)).
End CosSimExample.

(** ** Strings *)

(** [str.isspace] on the ASCII range: TAB..CR, FS..US and the space. *)
Definition is_space (c : ascii) : bool :=
  let n := nat_of_ascii c in
  ((9 <=? n) && (n <=? 13) || (28 <=? n) && (n <=? 32))%nat.

Fixpoint lstrip (s : string) : string :=
  match s with
  | EmptyString => EmptyString
  | String c s' => if is_space c then lstrip s' else s
  end.

Fixpoint rstrip (s : string) : string :=
  match s with
  | EmptyString => EmptyString
  | String c s' =>
      match rstrip s' with
      | EmptyString => if is_space c then EmptyString else String c EmptyString
      | r => String c r
      end
  end.

(** [s.strip()] *)
Definition strip (s : string) : string := rstrip (lstrip s).

(** [str(v)] of a CSV cell: [csv.DictReader] fills the cells a short line
    does not have with [None]. *)
Definition py_str (v : option string) : string := default "None" v.

(** [pathlib]'s [name] and [stem] on a path written with "/". *)
Fixpoint has_slash (s : string) : bool :=
  match s with
  | EmptyString => false
  | String c s' => bool_decide (c = "/"%char) || has_slash s'
  end.

(** [Path.name]: what follows the last "/". *)
Fixpoint path_name (s : string) : string :=
  match s with
  | EmptyString => EmptyString
  | String c s' =>
      if has_slash s' then path_name s'
      else if bool_decide (c = "/"%char) then s' else s
  end.

(** [name.rfind('.')] *)
Fixpoint rfind_dot (s : string) : option nat :=
  match s with
  | EmptyString => None
  | String c s' =>
      match rfind_dot s' with
      | Some i => Some (S i)
      | None => if bool_decide (c = "."%char) then Some 0%nat else None
      end
  end.

(** [Path.stem]: [name[:i]] when [0 < i < len(name) - 1] for
    [i = name.rfind('.')], else [name]. *)
Definition path_stem (s : string) : string :=
  let name := path_name s in
  match rfind_dot name with
  | Some i =>
      if (0 <? i)%nat && (i <? String.length name - 1)%nat
      then substring 0 i name else name
  | None => name
  end.

(** ** Catalog rows and the CSV source *)

Record CatalogRow := {
  sku_id : string;
  title : string;
  brand : string;
  image_path : string;
  text : string;
}.

#[global] Instance CatalogRow_eq_dec : EqDecision CatalogRow.
Proof. solve_decision. Defined.

(** One line of the CSV as [csv.DictReader] yields it, at the four columns
    the code reads. *)
Record csv_row := {
  c_sku_id : option string;
  c_title : option string;
  c_brand : option string;
  c_image_path : option string;
}.

Record csv_table := {
  fieldnames : list string;      (* [] when the file has no header line *)
  records : list csv_row;
}.

(** [sorted(required)] *)
Definition required : list string := ["brand"; "image_path"; "sku_id"; "title"].

Fixpoint join (sep : string) (l : list string) : string :=
  match l with
  | [] => ""
  | [x] => x
  | x :: l' => x +:+ sep +:+ join sep l'
  end.

(** ** Collaborators

    The encoder, the detector, numpy's sort, PIL and the file system of
    the catalog source are outside the code; they are operations of a
    class. An operation that can raise returns a [result]. *)

Definition bytes := list Byte.byte.

Record DetInstance (F Image : Type) := {
  bbox : list Z;
  class : string;
  conf : F;
  crop : Image;
}.
Arguments bbox {F Image} _.
Arguments class {F Image} _.
Arguments conf {F Image} _.
Arguments crop {F Image} _.

(** One ranked match and one entry of the response's [instances]
    (api.py:235, api.py:243). *)
Record Reco (F : Type) := {
  r_sku_id : string;
  r_title : string;
  r_brand : string;
  r_image_url : string;
  r_score : F;
}.
Arguments r_sku_id {F} _.
Arguments r_title {F} _.
Arguments r_brand {F} _.
Arguments r_image_url {F} _.
Arguments r_score {F} _.

Record InstResult (F : Type) := {
  i_bbox : list Z;
  i_class : string;
  i_det_conf : F;
  top_k : list (Reco F);
  top1 : option (Reco F);
}.
Arguments i_bbox {F} _.
Arguments i_class {F} _.
Arguments i_det_conf {F} _.
Arguments top_k {F} _.
Arguments top1 {F} _.

Class Collaborators (F Image : Type) := {
  (** [open(csv_path)] and [csv.DictReader] *)
  read_csv : string → result csv_table;
  (** [str(Path(csv_path).parent / img_path)] *)
  path_join : string → string → string;
  (** [Path.exists] *)
  path_exists : string → bool;
  (** [Image.open(p).convert("RGB")] *)
  image_open : string → result Image;
  (** [ClipEncoder.encode_image], [ClipEncoder.encode_text] *)
  encode_image : Image → result (list F);
  encode_text : string → result (list F);
  (** [detect_instances(state.det, path)] on the bytes stored at [path] *)
  detect_instances : bytes → result (Image * list (DetInstance F Image));
  (** [np.argsort] with the default [kind] *)
  argsort : list F → list nat;
  (** the JPEG [draw_and_save] writes *)
  render : Image → list (InstResult F) → bytes;
}.

(** ** load_catalog (mvp_reco.py:63) *)

Section LoadCatalog.
Context {F Image : Type} `{Scalar F} `{Collaborators F Image}.

(** The dict [load_catalog] returns. *)
Record catalog := {
  cat_rows : list CatalogRow;
  cat_img_embs : ndarray F;
  cat_txt_embs : ndarray F;
}.

(** The five lists the loop appends to (mvp_reco.py:74). *)
Record build_acc := {
  a_imgs : list string;
  a_img_embs : list (list F);
  a_txts : list string;
  a_txt_embs : list (list F);
  a_rows : list CatalogRow;
}.

Definition acc_empty : build_acc :=
  {| a_imgs := []; a_img_embs := []; a_txts := []; a_txt_embs := []; a_rows := [] |}.

(** One iteration of the loop (mvp_reco.py:76-102): a row whose image
    does not exist is skipped ([continue]); otherwise the image and the
    text are encoded and all five lists grow by one. *)
Definition load_catalog_step (csv_path : string) (acc : build_acc) (row : csv_row)
    : result build_acc :=
  let sku := py_str (c_sku_id row) in
  let title := py_str (c_title row) in
  let brand := py_str (c_brand row) in
  let img_path := py_str (c_image_path row) in
  let p := path_join csv_path img_path in
  if negb (path_exists p) then Ok acc
  else
    pil ← image_open p;
    img_emb ← encode_image pil;
    let text := strip (brand +:+ " " +:+ title) in
    txt_emb ← encode_text text;
    Ok {| a_imgs := a_imgs acc ++ [p];
          a_img_embs := a_img_embs acc ++ [img_emb];
          a_txts := a_txts acc ++ [text];
          a_txt_embs := a_txt_embs acc ++ [txt_emb];
          a_rows := a_rows acc ++
            [{| sku_id := sku; title := title; brand := brand;
                image_path := p; text := text |}] |}.

Fixpoint load_catalog_loop (csv_path : string) (acc : build_acc)
    (rows_csv : list csv_row) : result build_acc :=
  match rows_csv with
  | [] => Ok acc
  | row :: rest =>
      acc' ← load_catalog_step csv_path acc row;
      load_catalog_loop csv_path acc' rest
  end.

(** What a line that is kept turns into, read off the loop body. *)
Definition resolved_path (csv_path : string) (row : csv_row) : string :=
  path_join csv_path (py_str (c_image_path row)).

Definition resolvable (csv_path : string) (row : csv_row) : bool :=
  path_exists (resolved_path csv_path row).

Definition row_text (row : csv_row) : string :=
  strip (py_str (c_brand row) +:+ " " +:+ py_str (c_title row)).

Definition row_of (csv_path : string) (row : csv_row) : CatalogRow :=
  {| sku_id := py_str (c_sku_id row); title := py_str (c_title row);
     brand := py_str (c_brand row); image_path := resolved_path csv_path row;
     text := row_text row |}.

(** Row [r] of the metadata goes with the image embedding [e_img] and the
    text embedding [e_txt]. *)
Definition embeds (r : CatalogRow) (e_img e_txt : list F) : Prop :=
  ∃ pil, image_open (image_path r) = Ok pil ∧
         encode_image pil = Ok e_img ∧
         encode_text (text r) = Ok e_txt.

Definition catalog_empty_msg : string := "Catalog is empty.".

Definition load_catalog (csv_path : string) : result catalog :=
  t ← read_csv csv_path;
  if bool_decide (fieldnames t = []) then Raise (RuntimeError "CSV has no header.")
  else
    let missing := filter (λ k, k ∉ fieldnames t) required in
    if negb (bool_decide (missing = []))
    then Raise (RuntimeError ("CSV lacks required columns: " +:+ join ", " missing))
    else
      acc ← load_catalog_loop csv_path acc_empty (records t);
      if bool_decide (a_rows acc = []) then Raise (RuntimeError catalog_empty_msg)
      else
        img ← vstack (a_img_embs acc);
        txt ← vstack (a_txt_embs acc);
        Ok {| cat_rows := a_rows acc; cat_img_embs := img; cat_txt_embs := txt |}.
End LoadCatalog.
Arguments catalog F : clear implicits.
Arguments build_acc F : clear implicits.

(** ** The server state (api.py:65) and the cache directory *)

Section Server.
Context {F Image : Type} `{Scalar F} `{Collaborators F Image}.

(** The fields of [State] that make up the index. The two models
    ([det], [clip]) are loaded once at startup and are the collaborators
    above. *)
Record State := {
  catalog_rows : list CatalogRow;
  img_embs : option (ndarray F);
  txt_embs : option (ndarray F);
  embedding_dim : option Z;
  catalog_path : string;
}.

(** A file of the cache directory: missing, present but rejected by its
    deserializer, or holding a value. *)
Inductive file (A : Type) :=
  | Absent
  | Unreadable
  | Stored (a : A).
Arguments Absent {A}.
Arguments Unreadable {A}.
Arguments Stored {A} a.

Definition file_exists {A} (f : file A) : bool :=
  match f with Absent => false | _ => true end.

(** The JSON value under ["embedding_dim"]: an integer, or a value
    [int()] rejects. *)
Inductive json_dim :=
  | JInt (z : Z)
  | JNotInt.

(** What [json.load] returns for catalog_index.json: an object with the
    keys that are present, or another JSON value. *)
Record manifest_obj := {
  m_embedding_dim : option json_dim;
  m_ids : option (list string);
  m_rows : option (list CatalogRow);
  m_updated_at : option Z;
}.

Inductive manifest :=
  | JNotObject
  | JObject (o : manifest_obj).

Record CacheDir := {
  npz_file : file (gmap string (ndarray F));   (* catalog_embeddings.npz *)
  idx_file : file manifest;                    (* catalog_index.json *)
}.

Record World := {
  state : State;
  cache : CacheDir;
  runs : gmap string bytes;      (* the files under RUNS_DIR *)
  clock_ms : Z;                  (* [time.time()], in milliseconds *)
}.

(** Code that reads and writes the world and may raise; the world
    survives a raise. *)
Definition M (A : Type) : Type := World → World * result A.

#[global] Instance M_ret : MRet M := λ A a w, (w, Ok a).
#[global] Instance M_bind : MBind M := λ A B k m w,
  match m w with
  | (w', Ok a) => k a w'
  | (w', Raise e) => (w', Raise e)
  end.

Definition lift {A} (r : result A) : M A := λ w, (w, r).
Definition gets {A} (f : World → A) : M A := λ w, (w, Ok (f w)).
Definition modify (f : World → World) : M unit := λ w, (f w, Ok tt).

(** [try: m except Exception as e: h e] *)
Definition try_except {A} (m : M A) (h : exn → M A) : M A := λ w,
  match m w with
  | (w', Ok a) => (w', Ok a)
  | (w', Raise e) => h e w'
  end.

Definition with_state (f : State → State) (w : World) : World :=
  {| state := f (state w); cache := cache w; runs := runs w; clock_ms := clock_ms w |}.

(** The assignments [state.x = v]. *)
Definition set_catalog_rows (v : list CatalogRow) (s : State) : State :=
  {| catalog_rows := v; img_embs := img_embs s; txt_embs := txt_embs s;
     embedding_dim := embedding_dim s; catalog_path := catalog_path s |}.
Definition set_img_embs (v : option (ndarray F)) (s : State) : State :=
  {| catalog_rows := catalog_rows s; img_embs := v; txt_embs := txt_embs s;
     embedding_dim := embedding_dim s; catalog_path := catalog_path s |}.
Definition set_txt_embs (v : option (ndarray F)) (s : State) : State :=
  {| catalog_rows := catalog_rows s; img_embs := img_embs s; txt_embs := v;
     embedding_dim := embedding_dim s; catalog_path := catalog_path s |}.
Definition set_embedding_dim (v : option Z) (s : State) : State :=
  {| catalog_rows := catalog_rows s; img_embs := img_embs s; txt_embs := txt_embs s;
     embedding_dim := v; catalog_path := catalog_path s |}.
Definition set_catalog_path (v : string) (s : State) : State :=
  {| catalog_rows := catalog_rows s; img_embs := img_embs s; txt_embs := txt_embs s;
     embedding_dim := embedding_dim s; catalog_path := v |}.

Definition assign (f : State → State) : M unit := modify (with_state f).

(** The initial value of the class attributes of [State]. *)
Definition state_init (csv : string) : State :=
  {| catalog_rows := []; img_embs := None; txt_embs := None;
     embedding_dim := None; catalog_path := csv |}.

(** *** _save_cache (api.py:96) *)

(** [img_embs.shape[1]] of an attribute that may be [None]. *)
Definition shape1_of (a : option (ndarray F)) : result nat :=
  match a with
  | Some a => shape1 a
  | None => Raise AttributeError
  end.

Definition _save_cache (rows : list CatalogRow) (img txt : ndarray F) : M unit :=
  modify (λ w,
    {| state := state w;
       cache := {| npz_file := Stored (<["txt_embs" := txt]> (<["img_embs" := img]> ∅));
                   idx_file := idx_file (cache w) |};
       runs := runs w; clock_ms := clock_ms w |});;
  d ← lift (shape1 img);
  modify (λ w,
    {| state := state w;
       cache := {| npz_file := npz_file (cache w);
                   idx_file := Stored (JObject
                     {| m_embedding_dim := Some (JInt (Z.of_nat d));
                        m_ids := Some (map sku_id rows);
                        m_rows := Some rows;
                        m_updated_at := Some (clock_ms w / 1000) |}) |};
       runs := runs w; clock_ms := clock_ms w |}).

(** *** _try_load_cache (api.py:108) *)

(** [np.load(npz_path)] and [json.load(f)] *)
Definition load_file {A} (f : file A) : result A :=
  match f with
  | Stored a => Ok a
  | Unreadable => Raise ValueError
  | Absent => Raise FileNotFoundError
  end.

(** [npz[key]] *)
Definition npz_get (npz : gmap string (ndarray F)) (key : string) : result (ndarray F) :=
  match npz !! key with
  | Some a => Ok a
  | None => Raise (KeyError key)
  end.

(** [idx["rows"]] *)
Definition idx_rows (idx : manifest) : result (list CatalogRow) :=
  match idx with
  | JNotObject => Raise TypeError
  | JObject o =>
      match m_rows o with
      | Some rows => Ok rows
      | None => Raise (KeyError "rows")
      end
  end.

(** [int(idx.get("embedding_dim", default))]; the caller has evaluated
    [default] already. *)
Definition idx_dim (idx : manifest) (default : nat) : result Z :=
  match idx with
  | JNotObject => Raise TypeError
  | JObject o =>
      match m_embedding_dim o with
      | None => Ok (Z.of_nat default)
      | Some (JInt z) => Ok z
      | Some JNotInt => Raise TypeError
      end
  end.

Definition _try_load_cache : M bool :=
  c ← gets cache;
  if negb (file_exists (npz_file c) && file_exists (idx_file c)) then mret false
  else
    try_except
      (npz ← lift (load_file (npz_file c));
       idx ← lift (load_file (idx_file c));
       img ← lift (npz_get npz "img_embs");
       assign (set_img_embs (Some img));;
       txt ← lift (npz_get npz "txt_embs");
       assign (set_txt_embs (Some txt));;
       rows ← lift (idx_rows idx);
       assign (set_catalog_rows rows);;
       cur ← gets (λ w, img_embs (state w));
       default ← lift (shape1_of cur);
       d ← lift (idx_dim idx default);
       assign (set_embedding_dim (Some d));;
       mret true)
      (λ _, mret false).

(** The state a complete load installs. *)
Definition loaded_state (img txt : ndarray F) (rows : list CatalogRow) (d : Z)
    (s : State) : State :=
  set_embedding_dim (Some d)
    (set_catalog_rows rows (set_txt_embs (Some txt) (set_img_embs (Some img) s))).

(** *** _build_catalog (api.py:126) *)

Record BuildReport := {
  status : string;
  catalog_size : nat;
  report_dim : option Z;
  message : string;
}.

Definition report (st msg : string) : M BuildReport :=
  s ← gets state;
  mret {| status := st; catalog_size := length (catalog_rows s);
          report_dim := embedding_dim s; message := msg |}.

Definition _build_catalog (csv_path : string) (force : bool) : M BuildReport :=
  (if force return M bool then mret false else _try_load_cache) ≫= λ loaded : bool,
  if loaded then report "loaded" "Loaded embeddings from cache."
  else
    cat ← lift (load_catalog csv_path);
    assign (set_catalog_rows (cat_rows cat));;
    assign (set_img_embs (Some (cat_img_embs cat)));;
    assign (set_txt_embs (Some (cat_txt_embs cat)));;
    cur ← gets (λ w, img_embs (state w));
    d ← lift (shape1_of cur);
    assign (set_embedding_dim (Some (Z.of_nat d)));;
    s ← gets state;
    match img_embs s, txt_embs s with
    | Some img, Some txt => _save_cache (catalog_rows s) img txt
    | _, _ => lift (Raise AttributeError)
    end;;
    report "success" "Catalog embeddings rebuilt and cached.".

(** The cache directory [_save_cache] leaves for a catalog of dimension
    [D] written at time [now] (milliseconds). *)
Definition built_cache (cat : catalog F) (D : nat) (now : Z) : CacheDir :=
  {| npz_file := Stored (<["txt_embs" := cat_txt_embs cat]>
                          (<["img_embs" := cat_img_embs cat]> ∅));
     idx_file := Stored (JObject
       {| m_embedding_dim := Some (JInt (Z.of_nat D));
          m_ids := Some (map sku_id (cat_rows cat));
          m_rows := Some (cat_rows cat);
          m_updated_at := Some (now / 1000) |}) |}.

(** ** The routes *)

(** The index: the four fields a build or a cache load assigns. *)
Definition index_of (s : State) :=
  (catalog_rows s, img_embs s, txt_embs s, embedding_dim s).

(** *** health (api.py:169): the [catalog_ready] field *)
Definition catalog_ready (s : State) : bool :=
  bool_decide (is_Some (img_embs s)) && bool_decide (is_Some (txt_embs s)).

(** *** _startup (api.py:154), after the two models are loaded *)
Definition _startup : M unit :=
  _try_load_cache ≫= λ loaded : bool,
  p ← gets (λ w, catalog_path (state w));
  if negb loaded && path_exists p
  then _build_catalog p false;; mret tt
  else mret tt.

(** *** catalog_rebuild (api.py:177) *)
Inductive RebuildResponse :=
  | Rebuild400 (error : string)
  | Rebuild200 (r : BuildReport).

(** [Path(req.catalog_csv) if req.catalog_csv else state.catalog_path] *)
Definition rebuild_source (catalog_csv : option string) (cur : string) : string :=
  match catalog_csv with
  | Some p => if bool_decide (p = "") then cur else p
  | None => cur
  end.

Definition catalog_rebuild (force : bool) (catalog_csv : option string)
    : M RebuildResponse :=
  cur ← gets (λ w, catalog_path (state w));
  let csv_path := rebuild_source catalog_csv cur in
  if negb (path_exists csv_path)
  then mret (Rebuild400 ("CSV not found: " +:+ csv_path))
  else
    assign (set_catalog_path csv_path);;
    r ← _build_catalog csv_path force;
    mret (Rebuild200 r).

(** *** catalog_query (api.py:185) *)
Record QueryItem := {
  q_sku_id : string;
  q_title : string;
  q_brand : string;
  q_image_url : option string;
}.

Record QueryResponse := {
  items : list QueryItem;
  missing : list string;
}.

(** [{r["sku_id"]: r for r in state.catalog_rows}]: a later row replaces
    an earlier one with the same key. *)
Definition rows_by_id (rows : list CatalogRow) : gmap string CatalogRow :=
  foldl (λ m r, <[sku_id r := r]> m) ∅ rows.

Definition item_of (r : CatalogRow) : QueryItem :=
  {| q_sku_id := sku_id r; q_title := title r; q_brand := brand r;
     q_image_url := Some (image_path r) |}.

(** One iteration of [for sid in req.sku_ids] (api.py:191-201). *)
Definition query_step (by_id : gmap string CatalogRow)
    (acc : list QueryItem * list string) (sid : string)
    : list QueryItem * list string :=
  match by_id !! sid with
  | Some r => (acc.1 ++ [item_of r], acc.2)
  | None => (acc.1, acc.2 ++ [sid])
  end.

Definition query_rows (rows : list CatalogRow) (sku_ids : list string) : QueryResponse :=
  let r := foldl (query_step (rows_by_id rows)) ([], []) sku_ids in
  {| items := r.1; missing := r.2 |}.

Definition catalog_query (sku_ids : list string) : M QueryResponse :=
  s ← gets state;
  (if bool_decide (catalog_rows s = []) && path_exists (catalog_path s)
   then _build_catalog (catalog_path s) false;; mret tt
   else mret tt);;
  rows ← gets (λ w, catalog_rows (state w));
  mret (query_rows rows sku_ids).

(** *** recommend (api.py:205) *)

(** [l[:k]] for a Python int [k]: a negative [k] counts from the end. *)
Definition slice_to {A} (k : Z) (l : list A) : list A :=
  if 0 <=? k then take (Z.to_nat k) l
  else take (length l - Z.to_nat (- k)) l.

(** [x op y] on 1-D arrays, with numpy's broadcasting. *)
Definition broadcast2 (f : F → F → F) (x y : list F) : result (list F) :=
  if Nat.eqb (length x) (length y) then Ok (zip_with f x y)
  else
    match x, y with
    | [x0], _ => Ok (map (f x0) y)
    | _, [y0] => Ok (map (λ a, f a y0) x)
    | _, _ => Raise ValueError
    end.

(** [alpha_img * s_img + (1 - alpha_img) * s_txt] (api.py:229) *)
Definition fused_score (alpha_img : F) (s_img s_txt : list F) : result (list F) :=
  broadcast2 fadd (map (fmul alpha_img) s_img)
                  (map (fmul (fsub fone alpha_img)) s_txt).

(** [l[j]] *)
Definition index {A} (l : list A) (j : nat) : result A :=
  match l !! j with
  | Some a => Ok a
  | None => Raise IndexError
  end.

Fixpoint traverse {A B} (f : A → result B) (l : list A) : result (list B) :=
  match l with
  | [] => Ok []
  | a :: l' => b ← f a; bs ← traverse f l'; Ok (b :: bs)
  end.

(** [np.argsort(-score)[: int(topk)]] (api.py:231) *)
Definition top_indices (score : list F) (topk : Z) : list nat :=
  slice_to topk (argsort (map fneg score)).

(** The dict appended to [recos] (api.py:235-241). *)
Definition mk_reco (row : CatalogRow) (sc : F) : Reco F :=
  {| r_sku_id := sku_id row; r_title := title row; r_brand := brand row;
     r_image_url := image_path row; r_score := sc |}.

(** The body of [for j in idx] (api.py:233-241). *)
Definition reco_of (rows : list CatalogRow) (score : list F) (j : nat) : result (Reco F) :=
  row ← index rows j;
  sc ← index score j;
  Ok (mk_reco row sc).

(** The ranked list of one instance from its fused scores. *)
Definition rank (rows : list CatalogRow) (score : list F) (topk : Z)
    : result (list (Reco F)) :=
  traverse (reco_of rows score) (top_indices score topk).

(** [cos_sim(emb, state.x)] with [state.x] possibly [None]. *)
Definition cos_sim_attr (emb : list F) (a : option (ndarray F)) : result (list F) :=
  match a with
  | Some b => cos_sim emb b
  | None => Raise TypeError
  end.

(** The scoring step: the fused scores of a query embedding against the
    index (api.py:227-229). *)
Definition score_of (s : State) (emb : list F) (alpha_img : F) : result (list F) :=
  s_img ← cos_sim_attr emb (img_embs s);
  s_txt ← cos_sim_attr emb (txt_embs s);
  fused_score alpha_img s_img s_txt.

(** One iteration of [for inst in instances] (api.py:225-249). *)
Definition rank_instance (s : State) (topk : Z) (alpha_img : F)
    (inst : DetInstance F Image) : result (InstResult F) :=
  emb ← encode_image (crop inst);
  score ← score_of s emb alpha_img;
  recos ← rank (catalog_rows s) score topk;
  Ok {| i_bbox := bbox inst; i_class := class inst; i_det_conf := conf inst;
        top_k := recos; top1 := head recos |}.

(** An index of [N] rows at dimension [D]: both matrices are [N] by [D]
    and there are [N] rows of metadata. *)
Definition populated (s : State) (N D : nat) : Prop :=
  ∃ irows trows,
    img_embs s = Some (Mat D irows) ∧ txt_embs s = Some (Mat D trows) ∧
    length irows = N ∧ length trows = N ∧ length (catalog_rows s) = N.

(** Entry [p] of [recos] is row [idx[p]] of the metadata with its fused
    score. *)
Definition ranks (rows : list CatalogRow) (score : list F)
    (idx : list nat) (recos : list (Reco F)) : Prop :=
  Forall2 (λ j r, ∃ row sc,
    rows !! j = Some row ∧ score !! j = Some sc ∧ r = mk_reco row sc) idx recos.

(** No entry is followed by one with a larger score. *)
Definition descending (recos : list (Reco F)) : Prop :=
  ∀ p q a b, (p < q)%nat → recos !! p = Some a → recos !! q = Some b →
    flt (r_score a) (r_score b) = false.

(** [RUNS_DIR / "uploads" / f"{stamp}_{image.filename}"] *)
Definition upload_path (stamp : Z) (filename : string) : string :=
  "runs/uploads/" +:+ pretty stamp +:+ "_" +:+ filename.

(** The entry of an instance for which no match was asked ([topk = 0]). *)
Definition unranked (inst : DetInstance F Image) : InstResult F :=
  {| i_bbox := bbox inst; i_class := class inst; i_det_conf := conf inst;
     top_k := []; top1 := None |}.

(** The world once the upload of a request is stored. *)
Definition with_upload (filename : string) (content : bytes) (w : World) : World :=
  {| state := state w; cache := cache w;
     runs := <[upload_path (clock_ms w) filename := content]> (runs w);
     clock_ms := clock_ms w |}.

(** [draw_and_save] (mvp_reco.py:189): the label of an instance reads
    [inst["top1"]["sku_id"]], a TypeError when [top1] is [None]. *)
Definition draw_and_save (pil : Image) (results : list (InstResult F))
    (out_path : string) : M unit :=
  if forallb (λ r, bool_decide (is_Some (top1 r))) results
  then modify (λ w,
    {| state := state w; cache := cache w;
       runs := <[out_path := render pil results]> (runs w);
       clock_ms := clock_ms w |})
  else lift (Raise TypeError).

Inductive Response :=
  | Resp400 (error : string)
  | Resp200 (image_url : string) (vis_url : option string)
            (instances : list (InstResult F)).

Definition not_ready_msg : string := "Catalog not ready. Call /catalog/rebuild first.".

Definition recommend (filename : string) (content : bytes) (topk : Z)
    (alpha_img : F) (return_vis : bool) : M Response :=
  s ← gets state;
  if negb (bool_decide (is_Some (img_embs s)) && bool_decide (is_Some (txt_embs s)))
  then mret (Resp400 not_ready_msg)
  else
    stamp ← gets clock_ms;
    let img_path := upload_path stamp filename in
    modify (λ w,
      {| state := state w; cache := cache w;
         runs := <[img_path := content]> (runs w);
         clock_ms := clock_ms w |});;
    stored ← gets (λ w, runs w !! img_path);
    det ← lift (match stored with
                | Some b => detect_instances b
                | None => Raise FileNotFoundError
                end);
    s' ← gets state;
    results ← lift (traverse (rank_instance s' topk alpha_img) det.2);
    vis_url ← (if return_vis && negb (bool_decide (results = []))
               then
                 let vis_path := "runs/" +:+ path_stem img_path +:+ "_vis.jpg" in
                 draw_and_save det.1 results vis_path;;
                 mret (Some ("/runs/" +:+ path_name vis_path))
               else mret None);
    mret (Resp200 ("/runs/uploads/" +:+ path_name img_path) vis_url results).

(** ** A rebuild next to a request in flight

    [catalog_rebuild] is a plain [def], which the framework runs on a
    worker thread; [recommend] runs on the event loop. Both work on the
    one module-level [state]: the rebuild stores its result with the four
    assignments of api.py:136-139, the request reads [state.img_embs]
    (api.py:227), [state.txt_embs] (api.py:228) and, for each ranked row,
    [state.catalog_rows] (api.py:234). An attribute store or load is one
    step; a schedule says which thread takes the next step. *)

(** [state.embedding_dim = int(state.img_embs.shape[1])] as a store. *)
Definition store_dim (s : State) : State :=
  match shape1_of (img_embs s) with
  | Ok d => set_embedding_dim (Some (Z.of_nat d)) s
  | Raise _ => s
  end.

Definition rebuild_writes (cat : catalog F) : list (State → State) :=
  [ set_catalog_rows (cat_rows cat);
    set_img_embs (Some (cat_img_embs cat));
    set_txt_embs (Some (cat_txt_embs cat));
    store_dim ].

Inductive field_read := ReadImg | ReadTxt | ReadRows.

Inductive seen :=
  | SeenImg (a : option (ndarray F))
  | SeenTxt (a : option (ndarray F))
  | SeenRows (rows : list CatalogRow).

Definition observe (r : field_read) (s : State) : seen :=
  match r with
  | ReadImg => SeenImg (img_embs s)
  | ReadTxt => SeenTxt (txt_embs s)
  | ReadRows => SeenRows (catalog_rows s)
  end.

(** The loads of one instance that ranks [k] rows. *)
Definition instance_reads (k : nat) : list field_read :=
  [ReadImg; ReadTxt] ++ replicate k ReadRows.

(** What a request sees when nothing runs next to it. *)
Definition snapshot (s : State) (reads : list field_read) : list seen :=
  map (λ r, observe r s) reads.

Record config := {
  shared : State;
  writer : list (State → State);
  reader : list field_read;
  seen_so_far : list seen;
}.

Inductive thread := Writer | Reader.

Definition step (t : thread) (c : config) : option config :=
  match t with
  | Writer =>
      match writer c with
      | [] => None
      | f :: rest =>
          Some {| shared := f (shared c); writer := rest;
                  reader := reader c; seen_so_far := seen_so_far c |}
      end
  | Reader =>
      match reader c with
      | [] => None
      | r :: rest =>
          Some {| shared := shared c; writer := writer c; reader := rest;
                  seen_so_far := seen_so_far c ++ [observe r (shared c)] |}
      end
  end.

Fixpoint run (sched : list thread) (c : config) : option config :=
  match sched with
  | [] => Some c
  | t :: sched' => c' ← step t c; run sched' c'
  end.

Definition start (s : State) (cat : catalog F) (k : nat) : config :=
  {| shared := s; writer := rebuild_writes cat;
     reader := instance_reads k; seen_so_far := [] |}.

(** The state after the four stores. *)
Definition rebuilt (s : State) (cat : catalog F) : State :=
  foldl (λ s f, f s) s (rebuild_writes cat).

(** A configuration a schedule can reach from [start s cat k]: the rebuild
    has done its first [j] stores, the request its first [m] reads, and
    each value read is the old or the new value of its field. *)
Definition interleaved (s : State) (cat : catalog F) (k : nat) (c : config) : Prop :=
  ∃ j m,
    writer c = drop j (rebuild_writes cat) ∧
    shared c = foldl (λ s f, f s) s (take j (rebuild_writes cat)) ∧
    reader c = drop m (instance_reads k) ∧
    Forall2 (λ r o, o = observe r s ∨ o = observe r (rebuilt s cat))
      (take m (instance_reads k)) (seen_so_far c).
End Server.
Arguments State F : clear implicits.
Arguments World F : clear implicits.
Arguments CacheDir F : clear implicits.
Arguments config F : clear implicits.
Arguments seen F : clear implicits.
Arguments Absent {A}.
Arguments Unreadable {A}.
Arguments Stored {A} a.


(** ** numpy's argsort

    [np.argsort(a)] with the default [kind='quicksort'] returns indices
    that sort [a]; numpy documents that kind as not stable, so the order
    it gives to equal keys is not part of its contract. *)

Section Argsort.
Context {F : Type} `{Scalar F}.

(** [xs[i] < xs[j]] in the order numpy sorts by. *)
Definition lt_at (xs : list F) (i j : nat) : bool :=
  match xs !! i, xs !! j with
  | Some x, Some y => sort_lt x y
  | _, _ => false
  end.

(** No index of [out] is followed by one with a smaller key. *)
Fixpoint sorted_idx (xs : list F) (out : list nat) : bool :=
  match out with
  | [] => true
  | i :: out' => forallb (λ j, negb (lt_at xs j i)) out' && sorted_idx xs out'
  end.

(** The contract of [np.argsort] at one input. *)
Definition is_argsort (xs : list F) (out : list nat) : Prop :=
  out ≡ₚ seq 0 (length xs) ∧ sorted_idx xs out = true.

(** Two sorts that meet it. Insertion from the right, a new index going
    in front of the keys that are not smaller: equal keys keep their
    order. *)
Fixpoint insert_first (xs : list F) (j : nat) (out : list nat) : list nat :=
  match out with
  | [] => [j]
  | i :: out' =>
      if lt_at xs i j then i :: insert_first xs j out' else j :: out
  end.

Definition argsort_stable (xs : list F) : list nat :=
  foldr (insert_first xs) [] (seq 0 (length xs)).

(** The same, a new index going behind the keys that are not larger:
    equal keys come out in reverse order. *)
Fixpoint insert_last (xs : list F) (j : nat) (out : list nat) : list nat :=
  match out with
  | [] => [j]
  | i :: out' =>
      if lt_at xs j i then j :: out else i :: insert_last xs j out'
  end.

Definition argsort_reversing (xs : list F) : list nat :=
  foldr (insert_last xs) [] (seq 0 (length xs)).
#[global] Instance is_argsort_dec (xs : list F) (out : list nat) :
  Decision (is_argsort xs out).
Proof. unfold is_argsort. apply _. Defined.
End Argsort.

(** ** detect_instances (mvp_reco.py:159)

    The part of [detect_instances] that is the repository's own: the loop
    over the boxes the detector returned, for an image of size [W] by [H].
    A coordinate is a finite float, that is a rational; [int()] truncates
    it toward zero. *)

Definition py_int (q : Q) : Z := Z.quot (Qnum q) (Zpos (Qden q)).

Record YoloBox (F : Type) := {
  xyxy : Q * Q * Q * Q;
  cls : Z;
  box_conf : F;
}.
Arguments xyxy {F} _.
Arguments cls {F} _.
Arguments box_conf {F} _.

Section Detect.
Context {F Image : Type}.
(** [det_model.names] and [pil.crop] *)
Variable names : gmap Z string.
Variable pil_crop : Image → Z * Z * Z * Z → Image.

(** One iteration of [for b in res.boxes] (mvp_reco.py:170-185): [None]
    is the [continue] of a box that is empty after clipping. *)
Definition detect_step (W H : Z) (pil : Image) (b : YoloBox F)
    : result (option (DetInstance F Image)) :=
  let '(x1, y1, x2, y2) := xyxy b in
  let x1 := Z.max 0 (py_int x1) in
  let y1 := Z.max 0 (py_int y1) in
  let x2 := Z.min (W - 1) (py_int x2) in
  let y2 := Z.min (H - 1) (py_int y2) in
  if (x2 <=? x1) || (y2 <=? y1) then Ok None
  else
    match names !! cls b with
    | None => Raise (KeyError (pretty (cls b)))
    | Some name =>
        Ok (Some {| bbox := [x1; y1; x2; y2]; class := name;
                    conf := box_conf b; crop := pil_crop pil (x1, y1, x2, y2) |})
    end.

Fixpoint detect_loop (W H : Z) (pil : Image) (boxes : list (YoloBox F))
    : result (list (DetInstance F Image)) :=
  match boxes with
  | [] => Ok []
  | b :: rest =>
      r ← detect_step W H pil b;
      insts ← detect_loop W H pil rest;
      Ok (match r with Some i => i :: insts | None => insts end)
  end.

(** [res.boxes] is [None] or a list of boxes. *)
Definition detect_boxes (W H : Z) (pil : Image) (boxes : option (list (YoloBox F)))
    : result (list (DetInstance F Image)) :=
  match boxes with
  | None => Ok []
  | Some bs => detect_loop W H pil bs
  end.

(** A box inside an image of size [W] by [H], not empty. *)
Definition box_ok (W H : Z) (bb : list Z) : Prop :=
  ∃ x1 y1 x2 y2, bb = [x1; y1; x2; y2] ∧
    0 ≤ x1 < x2 ∧ x2 ≤ W - 1 ∧ 0 ≤ y1 < y2 ∧ y2 ≤ H - 1.
End Detect.

(** ** save_embeddings_to_db (mvp_reco.py:139)

    The [embeddings] table, keyed by its primary key [sku_id]; a row holds
    the embedding bytes and the dimension. [INSERT OR REPLACE] is an
    insert into the map. *)

Section EmbeddingsTable.
Context {F : Type}.
(** [vec.astype("float32").tobytes()] *)
Variable tobytes : list F → bytes.

Definition save_embeddings_to_db (table : gmap string (bytes * nat))
    (catalog_rows : list CatalogRow) (img_embs : ndarray F)
    : result (gmap string (bytes * nat)) :=
  match img_embs with
  | Vec1 _ => Raise IndexError
  | Mat dim vecs =>
      Ok (foldl (λ t rv, <[sku_id rv.1 := (tobytes rv.2, dim)]> t) table
                (zip catalog_rows vecs))
  end.
End EmbeddingsTable.

(** ** choose_text_field (data_merge.py:19)

    An entry of a listing field: [language_tag] is [None] when the key is
    absent, null or empty ([item.get("language_tag", "") or ""]); [value]
    is [None] when the key is absent. *)

Record TextField := {
  language_tag : option string;
  value : option string;
}.

(** [lang.lower().startswith("en")] *)
Definition is_english (lang : string) : bool :=
  match lang with
  | String c1 (String c2 _) =>
      (bool_decide (c1 = "e"%char) || bool_decide (c1 = "E"%char)) &&
      (bool_decide (c2 = "n"%char) || bool_decide (c2 = "N"%char))
  | _ => false
  end.

Definition tagged_english (item : TextField) : bool :=
  is_english (default "" (language_tag item)).

(** [item.get("value", default)] *)
Definition default_value_of (item : TextField) (default : string) : string :=
  match value item with Some v => v | None => default end.

(** [for item in field_list: if ...: return item.get("value", default)] *)
Fixpoint first_english (field_list : list TextField) : option TextField :=
  match field_list with
  | [] => None
  | item :: rest => if tagged_english item then Some item else first_english rest
  end.

Definition choose_text_field (field_list : list TextField) (default : string) : string :=
  match field_list with
  | [] => default
  | first :: _ =>
      match first_english field_list with
      | Some item => default_value_of item default
      | None => default_value_of first default
      end
  end.

(** ** A small deployment

    Stand-ins in the manner of the repository's tests (tests/test_unit.py:
    [DummyClip] encodes an image as its size and a text as its length), at
    dtype float32. The file system holds catalog/catalog.csv with three
    lines; which image files exist, and which sort stands for
    [np.argsort], are parameters. *)

Module Demo.
Import IEEE.

Definition f32 (z : Z) : spec_float := of_Z 24 128 z.

#[global] Instance demo_scalar : Scalar spec_float := binary32.

Definition Image : Type := Z * Z.

Definition csv_path : string := "catalog/catalog.csv".

Definition line (sku title brand img : string) : csv_row :=
  {| c_sku_id := Some sku; c_title := Some title; c_brand := Some brand;
     c_image_path := Some img |}.

Definition table : csv_table :=
  {| fieldnames := ["sku_id"; "title"; "brand"; "image_path"];
     records := [ line "sku-a" "Item A" "Brand A" "images/a.jpg";
                  line "sku-b" "Item B" "Brand B" "images/b.jpg";
                  line "sku-c" "Item C" "Brand C" "images/c.jpg" ] |}.

Definition size_of (p : string) : result Image :=
  if bool_decide (p = "catalog/images/a.jpg") then Ok (1, 0)
  else if bool_decide (p = "catalog/images/b.jpg") then Ok (0, 1)
  else if bool_decide (p = "catalog/images/c.jpg") then Ok (1, 0)
  else Raise FileNotFoundError.

Definition env (existing : list string) (sort : list spec_float → list nat)
    : Collaborators spec_float Image :=
  {| read_csv p := if bool_decide (p = csv_path) then Ok table else Raise FileNotFoundError;
     path_join _ img := "catalog/" +:+ img;
     path_exists p := bool_decide (p ∈ existing);
     image_open := size_of;
     encode_image img := Ok [f32 img.1; f32 img.2];
     encode_text t := Ok [f32 (Z.of_nat (String.length t)); f32 1];
     detect_instances _ :=
       Ok ((6, 6), [{| bbox := [0; 0; 4; 4]; class := "det-item";
                       conf := f32 1; crop := (1, 0) |}]);
     argsort := sort;
     render _ _ := [] |}.

(** As [env], with another table behind catalog/catalog.csv. *)
Definition env_of_table (t : csv_table) : Collaborators spec_float Image :=
  {| read_csv p := if bool_decide (p = csv_path) then Ok t else Raise FileNotFoundError;
     path_join _ img := "catalog/" +:+ img;
     path_exists p := bool_decide (p = csv_path);
     image_open := size_of;
     encode_image img := Ok [f32 img.1; f32 img.2];
     encode_text t := Ok [f32 (Z.of_nat (String.length t)); f32 1];
     detect_instances _ := Ok ((6, 6), []);
     argsort := argsort_stable;
     render _ _ := [] |}.

(** As [env] with every file there, but images/b.jpg cannot be opened. *)
Definition broken : Collaborators spec_float Image :=
  {| read_csv p := if bool_decide (p = csv_path) then Ok table else Raise FileNotFoundError;
     path_join _ img := "catalog/" +:+ img;
     path_exists p := true;
     image_open p :=
       if bool_decide (p = "catalog/images/b.jpg") then Raise ExternalError
       else size_of p;
     encode_image img := Ok [f32 img.1; f32 img.2];
     encode_text t := Ok [f32 (Z.of_nat (String.length t)); f32 1];
     detect_instances _ := Ok ((6, 6), []);
     argsort := argsort_stable;
     render _ _ := [] |}.

(** As [env], with a detector that finds nothing. *)
Definition env_blind (existing : list string) : Collaborators spec_float Image :=
  {| read_csv := @read_csv _ _ (env existing argsort_stable);
     path_join := @path_join _ _ (env existing argsort_stable);
     path_exists := @path_exists _ _ (env existing argsort_stable);
     image_open := size_of;
     encode_image := @encode_image _ _ (env existing argsort_stable);
     encode_text := @encode_text _ _ (env existing argsort_stable);
     detect_instances _ := Ok ((6, 6), []);
     argsort := argsort_stable;
     render _ _ := [] |}.

Definition all_images : list string :=
  ["catalog/catalog.csv"; "catalog/images/a.jpg"; "catalog/images/b.jpg";
   "catalog/images/c.jpg"].

(** Every image is there. *)
Definition full : Collaborators spec_float Image := env all_images argsort_stable.
Definition blind : Collaborators spec_float Image := env_blind all_images.
(** images/b.jpg is missing. *)
Definition partial : Collaborators spec_float Image :=
  env ["catalog/catalog.csv"; "catalog/images/a.jpg"; "catalog/images/c.jpg"]
      argsort_stable.
(** No image is there. *)
Definition bare : Collaborators spec_float Image :=
  env ["catalog/catalog.csv"] argsort_stable.
(** As [full], sorting with [argsort_reversing]. *)
Definition full_reversing : Collaborators spec_float Image :=
  env all_images argsort_reversing.

Definition row (sku title brand img : string) : CatalogRow :=
  {| sku_id := sku; title := title; brand := brand; image_path := img;
     text := brand +:+ " " +:+ title |}.

Definition row_a : CatalogRow := row "sku-a" "Item A" "Brand A" "catalog/images/a.jpg".
Definition row_b : CatalogRow := row "sku-b" "Item B" "Brand B" "catalog/images/b.jpg".
Definition row_c : CatalogRow := row "sku-c" "Item C" "Brand C" "catalog/images/c.jpg".

(** A cache in the layout [_save_cache] writes: two arrays and a manifest. *)
Definition cache_of (img txt : ndarray spec_float) (rows : list CatalogRow)
    : CacheDir spec_float :=
  {| npz_file := Stored (<["txt_embs" := txt]> (<["img_embs" := img]> ∅));
     idx_file := Stored (JObject
       {| m_embedding_dim := Some (JInt 2); m_ids := Some (map sku_id rows);
          m_rows := Some rows; m_updated_at := Some 1700000000 |}) |}.

(** A cache whose arrays have one row and whose manifest lists two. *)
Definition cache_mismatch : CacheDir spec_float :=
  cache_of (Mat 2 [[f32 0; f32 1]]) (Mat 2 [[f32 0; f32 1]]) [row_a; row_b].

(** A cache whose array container lacks [txt_embs]. *)
Definition cache_no_txt : CacheDir spec_float :=
  {| npz_file := Stored (<["img_embs" := Mat 2 [[f32 0; f32 1]]]> ∅);
     idx_file := Stored (JObject
       {| m_embedding_dim := Some (JInt 2); m_ids := Some ["sku-c"];
          m_rows := Some [row_c]; m_updated_at := Some 1700000000 |}) |}.

Definition no_cache : CacheDir spec_float :=
  {| npz_file := Absent; idx_file := Absent |}.

Definition world (s : State spec_float) (c : CacheDir spec_float) : World spec_float :=
  {| state := s; cache := c; runs := ∅; clock_ms := 1700000000123 |}.

(** The state the repository's API tests install (tests/test_unit.py:316). *)
Definition state_ab : State spec_float :=
  {| catalog_rows := [row_a; row_b];
     img_embs := Some (Mat 2 [[f32 1; f32 0]; [f32 0; f32 1]]);
     txt_embs := Some (Mat 2 [[f32 1; f32 0]; [f32 0; f32 1]]);
     embedding_dim := Some 2;
     catalog_path := csv_path |}.

(** The state a build installs when every image is there: rows a, b, c,
    where a and c have the same image and text embeddings. *)
Definition state_abc : State spec_float :=
  {| catalog_rows := [row_a; row_b; row_c];
     img_embs := Some (Mat 2 [[f32 1; f32 0]; [f32 0; f32 1]; [f32 1; f32 0]]);
     txt_embs := Some (Mat 2 [[f32 14; f32 1]; [f32 14; f32 1]; [f32 14; f32 1]]);
     embedding_dim := Some 2;
     catalog_path := csv_path |}.

(** The catalog [load_catalog] returns when images/b.jpg is missing. *)
Definition catalog_ac : catalog spec_float :=
  {| cat_rows := [row_a; row_c];
     cat_img_embs := Mat 2 [[f32 1; f32 0]; [f32 1; f32 0]];
     cat_txt_embs := Mat 2 [[f32 14; f32 1]; [f32 14; f32 1]] |}.

(** The embedding of the crop the stand-in detector returns. *)
Definition query : list spec_float := [f32 1; f32 0].

(** The box of the repository's unit test, (1.2, 2.7, 8.9, 9.1) in a
    10 by 10 image, and a box that is empty after clipping. *)
Definition boxes : list (YoloBox Z) :=
  [ {| xyxy := (12 # 10, 27 # 10, 89 # 10, 91 # 10); cls := 0; box_conf := 95 |};
    {| xyxy := (95 # 10, 0 # 1, 120 # 10, 5 # 1); cls := 7; box_conf := 50 |} ].

(** The instance the stand-in detector returns. *)
Definition inst : DetInstance spec_float Image :=
  {| bbox := [0; 0; 4; 4]; class := "det-item"; conf := f32 1; crop := (1, 0) |}.

(** [alpha_img = 0.7] at float32. *)
Definition alpha : spec_float := SFdiv 24 128 (f32 7) (f32 10).
End Demo.

(** * Properties *)

(** ** The error monad *)

Lemma bind_Ok {A B} (r : result A) (k : A → result B) b :
  r ≫= k = Ok b ↔ ∃ a, r = Ok a ∧ k a = Ok b.
Proof.
  destruct r as [a|e]; simpl.
  - split; [eauto|]. by intros (a' & [= <-] & ?).
  - split; [done|]. by intros (? & ? & ?).
Qed.

Lemma bind_Raise {A B} (r : result A) (k : A → result B) e :
  r ≫= k = Raise e ↔ r = Raise e ∨ ∃ a, r = Ok a ∧ k a = Raise e.
Proof.
  destruct r as [a|e']; simpl.
  - split; [eauto|]. intros [|(a' & [= <-] & ?)]; done.
  - split; [intros [= ->]; by left|]. intros [[= ->]|(? & ? & ?)]; done.
Qed.

Ltac inv_bind H :=
  repeat match type of H with
  | _ ≫= _ = Ok _ =>
      let a := fresh "a" in let Ha := fresh "Ha" in
      apply bind_Ok in H as (a & Ha & H)
  end.

(** ** Cosine similarity *)

Section CosSim.
Context {F : Type} `{Scalar F}.

Lemma cos_sim_Mat (a : list F) (rows : list (list F)) :
  cos_sim a (Mat (length a) rows) = Ok (map (cos_row a) rows).
Proof.
  unfold cos_sim, matvec, norm_axis1. rewrite Nat.eqb_refl. simpl. f_equal.
  induction rows as [|r rows IH]; simpl; [done|]. by rewrite IH.
Qed.

Lemma cos_sim_shape_mismatch (a : list F) D (rows : list (list F)) :
  length a ≠ D → cos_sim a (Mat D rows) = Raise ValueError.
Proof.
  intros Hne. unfold cos_sim, matvec.
  destruct (Nat.eqb_spec (length a) D); [done|reflexivity].
Qed.

Lemma cos_sim_length (a : list F) (b : ndarray F) sims :
  cos_sim a b = Ok sims → length sims = shape0 b.
Proof.
  destruct b as [v|D rows]; simpl.
  - by destruct (length v =? length a)%nat.
  - unfold matvec. destruct (Nat.eqb_spec (length a) D) as [<-|]; [|done].
    simpl. intros [= <-].
    rewrite length_zip_with. unfold norm_axis1. rewrite !length_map. lia.
Qed.
End CosSim.


(** ** load_catalog *)

Section LoadCatalogFacts.
Context {F Image : Type} `{Scalar F} `{Collaborators F Image}.

Lemma vstack_Ok (vs : list (list F)) (m : ndarray F) :
  vstack vs = Ok m →
  ∃ v, head vs = Some v ∧ m = Mat (length v) vs ∧ Forall (λ r, length r = length v) vs.
Proof.
  destruct vs as [|v vs']; [done|]. unfold vstack.
  destruct (forallb _ _) eqn:Hall; [|done]. intros [= <-].
  exists v. split_and!; [done..|].
  apply Forall_forall. intros r Hr%list_elem_of_In.
  rewrite forallb_forall in Hall. by apply Nat.eqb_eq, Hall.
Qed.

(** A line that is kept adds one entry to each of the five lists; a line
    that is skipped adds none. *)
Lemma load_catalog_step_Ok csv_path (acc acc' : build_acc F) (row : csv_row) :
  load_catalog_step csv_path acc row = Ok acc' →
  if resolvable csv_path row
  then ∃ e_img e_txt,
         embeds (row_of csv_path row) e_img e_txt ∧
         a_rows acc' = a_rows acc ++ [row_of csv_path row] ∧
         a_img_embs acc' = a_img_embs acc ++ [e_img] ∧
         a_txt_embs acc' = a_txt_embs acc ++ [e_txt] ∧
         a_imgs acc' = a_imgs acc ++ [resolved_path csv_path row] ∧
         a_txts acc' = a_txts acc ++ [row_text row]
  else acc' = acc.
Proof.
  unfold load_catalog_step, resolvable, resolved_path.
  destruct (path_exists _) eqn:Hex; simpl; [|by intros [= <-]].
  intros Hstep. inv_bind Hstep. injection Hstep as <-. simpl.
  exists a0, a1. split_and!; try done.
  exists a. by split_and!.
Qed.

Lemma load_catalog_loop_Ok csv_path (rows_csv : list csv_row) (acc acc' : build_acc F) :
  load_catalog_loop csv_path acc rows_csv = Ok acc' →
  Forall3 embeds (a_rows acc) (a_img_embs acc) (a_txt_embs acc) →
  a_rows acc' = a_rows acc ++
    map (row_of csv_path) (filter (λ r, resolvable csv_path r) rows_csv) ∧
  Forall3 embeds (a_rows acc') (a_img_embs acc') (a_txt_embs acc').
Proof.
  revert acc. induction rows_csv as [|row rest IH]; intros acc Hloop Hinv; simpl in *.
  - injection Hloop as <-. by rewrite app_nil_r.
  - apply bind_Ok in Hloop as (acc1 & Hstep & Hloop).
    apply load_catalog_step_Ok in Hstep. rewrite filter_cons.
    destruct (resolvable csv_path row) eqn:Hres.
    + destruct Hstep as (e_img & e_txt & Hemb & Hr & Hi & Ht & _ & _).
      destruct (IH acc1 Hloop) as [Hrows Hall].
      { rewrite Hr, Hi, Ht. apply Forall3_app; [done|]. by repeat constructor. }
      split; [|done]. rewrite Hrows, Hr, <-app_assoc.
      rewrite decide_True by done. done.
    + subst acc1. destruct (IH acc Hloop Hinv) as [Hrows Hall].
      split; [|done]. rewrite Hrows. by rewrite decide_False by (by intros []).
Qed.

(** When every line is skipped the loop ends with the lists it started
    with, whatever the encoder would do. *)
Lemma load_catalog_loop_all_skipped csv_path (rows_csv : list csv_row) (acc : build_acc F) :
  Forall (λ r, resolvable csv_path r = false) rows_csv →
  load_catalog_loop csv_path acc rows_csv = Ok acc.
Proof.
  induction 1 as [|row rest Hrow _ IH]; simpl; [done|].
  unfold load_catalog_step. unfold resolvable, resolved_path in Hrow.
  by rewrite Hrow.
Qed.

Lemma load_catalog_Ok csv_path (cat : catalog F) :
  load_catalog csv_path = Ok cat →
  ∃ t acc,
    read_csv csv_path = Ok t ∧
    load_catalog_loop csv_path acc_empty (records t) = Ok acc ∧
    a_rows acc ≠ [] ∧
    cat_rows cat = a_rows acc ∧
    vstack (a_img_embs acc) = Ok (cat_img_embs cat) ∧
    vstack (a_txt_embs acc) = Ok (cat_txt_embs cat).
Proof.
  unfold load_catalog. intros Hload.
  apply bind_Ok in Hload as (t & Hread & Hload).
  case_bool_decide; [done|].
  destruct (negb _); [done|].
  apply bind_Ok in Hload as (acc & Hloop & Hload).
  case_bool_decide as Hne; [done|].
  apply bind_Ok in Hload as (img & Himg & Hload).
  apply bind_Ok in Hload as (txt & Htxt & Hload).
  injection Hload as <-. simpl. by exists t, acc.
Qed.

(** Both matrices of a catalog are 2-D and have one row per row of
    metadata, of which there is at least one. *)
Lemma load_catalog_Mat csv_path (cat : catalog F) :
  load_catalog csv_path = Ok cat →
  ∃ D_img D_txt img_rows txt_rows,
    cat_img_embs cat = Mat D_img img_rows ∧
    cat_txt_embs cat = Mat D_txt txt_rows ∧
    length (cat_rows cat) = length img_rows ∧
    length (cat_rows cat) = length txt_rows ∧
    cat_rows cat ≠ [].
Proof.
  intros (t & acc & _ & Hloop & Hne & Hrows & Himg & Htxt)%load_catalog_Ok.
  apply load_catalog_loop_Ok in Hloop as [_ Hall]; [|constructor].
  apply vstack_Ok in Himg as (v1 & _ & Himg & _).
  apply vstack_Ok in Htxt as (v2 & _ & Htxt & _).
  exists (length v1), (length v2), (a_img_embs acc), (a_txt_embs acc).
  rewrite Hrows. split_and!; [done|done| | |done].
  - by rewrite (Forall3_length_lm _ _ _ _ Hall).
  - by rewrite (Forall3_length_lr _ _ _ _ Hall).
Qed.
End LoadCatalogFacts.

(** C1. In every catalog [load_catalog] returns, the metadata and the two
    embedding matrices have one row per CSV line whose image resolves, in
    the order of the file (the other lines are left out of all three), and
    row [i] of each matrix is the embedding of the image, respectively of
    the text, of row [i] of the metadata. *)
Theorem load_catalog_aligned {F Image : Type} `{Scalar F} `{Collaborators F Image}
    (csv_path : string) (cat : catalog F) :
  load_catalog csv_path = Ok cat →
  ∃ t D_img D_txt img_rows txt_rows,
    read_csv csv_path = Ok t ∧
    cat_rows cat =
      map (row_of csv_path) (filter (λ r, resolvable csv_path r) (records t)) ∧
    cat_img_embs cat = Mat D_img img_rows ∧
    cat_txt_embs cat = Mat D_txt txt_rows ∧
    length (cat_rows cat) = shape0 (cat_img_embs cat) ∧
    length (cat_rows cat) = shape0 (cat_txt_embs cat) ∧
    ∀ i r, cat_rows cat !! i = Some r →
      ∃ e_img e_txt,
        img_rows !! i = Some e_img ∧ txt_rows !! i = Some e_txt ∧
        embeds r e_img e_txt.
Proof.
  intros (t & acc & Hread & Hloop & _ & Hrows & Himg & Htxt)%load_catalog_Ok.
  apply load_catalog_loop_Ok in Hloop as [Hacc Hall]; [|constructor].
  apply vstack_Ok in Himg as (v1 & _ & Himg & _).
  apply vstack_Ok in Htxt as (v2 & _ & Htxt & _).
  exists t, (length v1), (length v2), (a_img_embs acc), (a_txt_embs acc).
  rewrite Himg, Htxt, Hrows. simpl.
  pose proof (Forall3_length_lm _ _ _ _ Hall) as Hlen1.
  pose proof (Forall3_length_lr _ _ _ _ Hall) as Hlen2.
  split_and!; try done.
  intros i r Hi.
  destruct (Forall3_lookup_l _ _ _ _ _ _ Hall Hi) as (e_img & e_txt & ? & ? & ?).
  by exists e_img, e_txt.
Qed.

(** The catalog of the small deployment with images/b.jpg missing. *)
Lemma load_catalog_aligned_witness :
  ∃ cat, @load_catalog _ _ Demo.partial Demo.csv_path = Ok cat ∧
    ∃ t D_img D_txt img_rows txt_rows,
      @read_csv _ _ Demo.partial Demo.csv_path = Ok t ∧
      cat_rows cat =
        map (@row_of _ _ Demo.partial Demo.csv_path)
            (filter (λ r, @resolvable _ _ Demo.partial Demo.csv_path r) (records t)) ∧
      cat_img_embs cat = Mat D_img img_rows ∧
      cat_txt_embs cat = Mat D_txt txt_rows ∧
      length (cat_rows cat) = shape0 (cat_img_embs cat) ∧
      length (cat_rows cat) = shape0 (cat_txt_embs cat) ∧
      ∀ i r, cat_rows cat !! i = Some r →
        ∃ e_img e_txt,
          img_rows !! i = Some e_img ∧ txt_rows !! i = Some e_txt ∧
          @embeds _ _ Demo.partial r e_img e_txt.
Proof.
  eexists. split; [vm_compute; reflexivity|].
  apply (@load_catalog_aligned _ _ Demo.demo_scalar Demo.partial Demo.csv_path).
  vm_compute; reflexivity.
Defined.

(** ** catalog_query *)

Section QueryFacts.

(** The dict comprehension keeps, for each key, the last row that has it. *)
Lemma foldl_insert_lookup (rows : list CatalogRow) (m : gmap string CatalogRow) (k : string) :
  foldl (λ m r, <[sku_id r := r]> m) m rows !! k =
  match last (filter (λ r, sku_id r = k) rows) with
  | Some r => Some r
  | None => m !! k
  end.
Proof.
  revert m. induction rows as [|r rows IH]; intros m; simpl; [done|].
  rewrite IH, filter_cons. case_decide as Hk.
  - rewrite last_cons. destruct (last (filter _ rows)); [done|].
    by rewrite <-Hk, lookup_insert_eq.
  - destruct (last (filter _ rows)); [done|]. by rewrite lookup_insert_ne.
Qed.

Lemma rows_by_id_lookup (rows : list CatalogRow) (k : string) :
  rows_by_id rows !! k = last (filter (λ r, sku_id r = k) rows).
Proof.
  unfold rows_by_id. rewrite foldl_insert_lookup.
  by destruct (last _).
Qed.

Lemma rows_by_id_Some (rows : list CatalogRow) (k : string) (r : CatalogRow) :
  rows_by_id rows !! k = Some r → r ∈ rows ∧ sku_id r = k.
Proof.
  rewrite rows_by_id_lookup. intros Hlast%last_Some_elem_of.
  apply list_elem_of_filter in Hlast. tauto.
Qed.

Lemma rows_by_id_is_Some (rows : list CatalogRow) (k : string) :
  is_Some (rows_by_id rows !! k) ↔ k ∈ map sku_id rows.
Proof.
  rewrite rows_by_id_lookup, last_is_Some. split.
  - intros Hne. destruct (filter _ rows) as [|r l] eqn:Hf; [done|].
    assert (r ∈ filter (λ r, sku_id r = k) rows) as Hr by (rewrite Hf; left).
    apply list_elem_of_filter in Hr as [<- Hr].
    apply list_elem_of_fmap. eauto.
  - intros (r & -> & Hr)%list_elem_of_fmap Hnil.
    assert (r ∈ filter (λ r', sku_id r' = sku_id r) rows) as Hin
      by (by apply list_elem_of_filter).
    rewrite Hnil in Hin. by apply not_elem_of_nil in Hin.
Qed.

(** The loop over the request, in closed form. *)
Lemma query_fold (by_id : gmap string CatalogRow) (sku_ids : list string) acc :
  foldl (query_step by_id) acc sku_ids =
  (acc.1 ++ omap (λ sid, item_of <$> by_id !! sid) sku_ids,
   acc.2 ++ filter (λ sid, by_id !! sid = None) sku_ids).
Proof.
  revert acc. induction sku_ids as [|sid rest IH]; intros [its mis]; simpl.
  - by rewrite !app_nil_r.
  - rewrite IH, filter_cons. unfold query_step. simpl.
    destruct (by_id !! sid) as [r|] eqn:Hsid; simpl.
    + rewrite ?decide_False by done. by rewrite <-app_assoc.
    + rewrite ?decide_True by done. by rewrite <-app_assoc.
Qed.

Lemma query_items_ids (rows : list CatalogRow) (sku_ids : list string) :
  map q_sku_id (omap (λ sid, item_of <$> rows_by_id rows !! sid) sku_ids) =
  filter (λ sid, sid ∈ map sku_id rows) sku_ids.
Proof.
  induction sku_ids as [|sid rest IH]; simpl; [done|].
  rewrite filter_cons.
  destruct (rows_by_id rows !! sid) as [r|] eqn:Hsid; simpl.
  - rewrite decide_True by (apply rows_by_id_is_Some; by rewrite Hsid).
    apply rows_by_id_Some in Hsid as [_ ->]. f_equal. exact IH.
  - rewrite decide_False; [exact IH|].
    intros Hin%rows_by_id_is_Some. rewrite Hsid in Hin. by destruct Hin.
Qed.

Lemma query_missing (rows : list CatalogRow) (sku_ids : list string) :
  filter (λ sid, rows_by_id rows !! sid = None) sku_ids =
  filter (λ sid, sid ∉ map sku_id rows) sku_ids.
Proof.
  apply list_filter_iff. intros sid.
  rewrite <-rows_by_id_is_Some, eq_None_not_Some. done.
Qed.
End QueryFacts.

(** C10. On a populated catalog [catalog_query] leaves the state alone and
    splits the request: [items] holds, in request order, one entry for each
    requested id that some catalog row has, carrying the title, brand and
    image path of the last such row; [missing] holds, in request order, the
    other requested ids; together they are the request, entry for entry. *)
Theorem catalog_query_partitions {F Image : Type} `{Collaborators F Image}
    (w : World F) (sku_ids : list string) :
  catalog_rows (state w) ≠ [] →
  ∃ resp,
    catalog_query sku_ids w = (w, Ok resp) ∧
    map q_sku_id (items resp) =
      filter (λ sid, sid ∈ map sku_id (catalog_rows (state w))) sku_ids ∧
    missing resp =
      filter (λ sid, sid ∉ map sku_id (catalog_rows (state w))) sku_ids ∧
    map q_sku_id (items resp) ++ missing resp ≡ₚ sku_ids ∧
    (length (items resp) + length (missing resp) = length sku_ids)%nat ∧
    Forall (λ it, ∃ r,
      last (filter (λ r, sku_id r = q_sku_id it) (catalog_rows (state w))) = Some r ∧
      q_title it = title r ∧ q_brand it = brand r ∧
      q_image_url it = Some (image_path r)) (items resp).
Proof.
  intros Hpop. exists (query_rows (catalog_rows (state w)) sku_ids).
  assert (catalog_query sku_ids w =
          (w, Ok (query_rows (catalog_rows (state w)) sku_ids))) as Hrun.
  { unfold catalog_query, mbind, M_bind, gets, mret, M_ret. simpl.
    rewrite bool_decide_eq_false_2 by done. done. }
  split; [done|]. unfold query_rows. rewrite query_fold. simpl.
  rewrite query_items_ids, query_missing.
  split_and!; try done.
  - apply filter_app_complement.
  - rewrite <-(length_map q_sku_id), query_items_ids, <-length_app.
    apply Permutation_length, filter_app_complement.
  - apply Forall_forall. intros it Hit.
    apply list_elem_of_omap in Hit as (sid & _ & Hit).
    destruct (rows_by_id _ !! sid) as [r|] eqn:Hsid; [|done].
    injection Hit as <-. exists r. simpl.
    rewrite rows_by_id_lookup in Hsid.
    pose proof (last_Some_elem_of _ _ Hsid) as Hin.
    apply list_elem_of_filter in Hin as [Hk _]. by rewrite Hk.
Qed.

(** On the state of the API tests, asking for sku-b, sku-x and sku-a. *)
Lemma catalog_query_partitions_witness :
  ∃ resp,
    @catalog_query _ _ Demo.full ["sku-b"; "sku-x"; "sku-a"]
      (Demo.world Demo.state_ab Demo.no_cache)
    = (Demo.world Demo.state_ab Demo.no_cache, Ok resp) ∧
    map q_sku_id (items resp) = ["sku-b"; "sku-a"] ∧
    missing resp = ["sku-x"].
Proof.
  destruct (@catalog_query_partitions _ _ Demo.full
              (Demo.world Demo.state_ab Demo.no_cache) ["sku-b"; "sku-x"; "sku-a"])
    as (resp & Hrun & Hitems & Hmissing & _); [done|].
  exists resp. split_and!; [done| |].
  - rewrite Hitems. vm_compute. reflexivity.
  - rewrite Hmissing. vm_compute. reflexivity.
Defined.

(** ** The cache protocol *)

Ltac run_M :=
  unfold mbind, M_bind, mret, M_ret, lift, gets, assign, modify, try_except,
    load_file, npz_get, idx_rows, shape1_of in *;
  simpl in *.

Section CacheFacts.
Context {F Image : Type} `{Scalar F} `{Collaborators F Image}.

(** [_try_load_cache] never raises and writes neither the cache nor the
    run directory. *)
Lemma _try_load_cache_total (w : World F) :
  ∃ s' b, _try_load_cache w = (with_state (λ _, s') w, Ok b).
Proof.
  unfold _try_load_cache. run_M. destruct w as [s c r t]; simpl.
  destruct (npz_file c) as [| |npz]; simpl; try by (exists s, false).
  all: destruct (idx_file c) as [| |idx]; simpl; try by (exists s, false).
  destruct (npz !! "img_embs") as [img|]; simpl; [|by exists s, false].
  destruct (npz !! "txt_embs") as [txt|]; simpl; [|by eexists _, false].
  destruct idx as [|o]; simpl; [by eexists _, false|].
  destruct (m_rows o) as [rows|]; simpl; [|by eexists _, false].
  destruct img as [v|D irows]; simpl; [by eexists _, false|].
  destruct (m_embedding_dim o) as [[z|]|]; simpl; by eexists _, _.
Qed.

(** A load that fails before the first assignment (a file is missing or
    its deserializer rejects it) leaves the world as it was. *)
Lemma _try_load_cache_unreadable (w : World F) :
  (∀ npz, npz_file (cache w) ≠ Stored npz) ∨ (∀ idx, idx_file (cache w) ≠ Stored idx) →
  _try_load_cache w = (w, Ok false).
Proof.
  unfold _try_load_cache. run_M. destruct w as [s c r t]; simpl.
  destruct (npz_file c) as [| |npz], (idx_file c) as [| |idx]; simpl; try done.
  intros [Hn|Hi]; [by destruct (Hn npz)|by destruct (Hi idx)].
Qed.

(** When the load returns true, and what it has installed then. *)
Lemma _try_load_cache_loads_iff (w w' : World F) :
  _try_load_cache w = (w', Ok true) ↔
  ∃ npz o img txt rows d,
    npz_file (cache w) = Stored npz ∧
    idx_file (cache w) = Stored (JObject o) ∧
    npz !! "img_embs" = Some img ∧
    npz !! "txt_embs" = Some txt ∧
    m_rows o = Some rows ∧
    (shape1 img ≫= idx_dim (JObject o)) = Ok d ∧
    w' = with_state (loaded_state img txt rows d) w.
Proof.
  unfold _try_load_cache. run_M. destruct w as [s c r t]; simpl. split.
  - destruct (npz_file c) as [| |npz]; simpl; try done.
    all: destruct (idx_file c) as [| |idx]; simpl; try done.
    destruct (npz !! "img_embs") as [img|] eqn:Himg; simpl; [|done].
    destruct (npz !! "txt_embs") as [txt|] eqn:Htxt; simpl; [|done].
    destruct idx as [|o]; simpl; [done|].
    destruct (m_rows o) as [rows|] eqn:Hrows; simpl; [|done].
    destruct img as [v|D irows]; simpl; [done|].
    destruct (m_embedding_dim o) as [[z|]|] eqn:Hdim; simpl; [|done|].
    + intros [= <-]. exists npz, o, (Mat D irows), txt, rows, z.
      simpl. rewrite Hdim. by split_and!.
    + intros [= <-]. exists npz, o, (Mat D irows), txt, rows, (Z.of_nat D).
      simpl. rewrite Hdim. by split_and!.
  - intros (npz & o & img & txt & rows & d & -> & -> & Himg & Htxt & Hrows & Hd & ->).
    simpl. rewrite Himg. simpl. rewrite Htxt. simpl. rewrite Hrows. simpl.
    destruct img as [v|D irows]; simpl in *; [done|].
    destruct (m_embedding_dim o) as [[z|]|]; simpl in *; [|done|].
    + by injection Hd as <-.
    + by injection Hd as <-.
Qed.
End CacheFacts.




(** C3, at the failing input. The array container holds [img_embs] but
    not [txt_embs]: the load returns false after it has replaced
    [state.img_embs], so the state pairs the cache's image matrix with the
    rows and the text matrix that were active before the call. *)
Theorem _try_load_cache_partial_load :
  ∃ w',
    _try_load_cache (Demo.world Demo.state_ab Demo.cache_no_txt) = (w', Ok false) ∧
    img_embs (state w') = Some (Mat 2 [[Demo.f32 0; Demo.f32 1]]) ∧
    txt_embs (state w') = txt_embs Demo.state_ab ∧
    catalog_rows (state w') = catalog_rows Demo.state_ab ∧
    index_of (state w') ≠ index_of Demo.state_ab.
Proof.
  eexists. split_and!; [vm_compute; reflexivity|reflexivity..|].
  vm_compute. congruence.
Qed.

(** ** _build_catalog *)

Section BuildFacts.
Context {F Image : Type} `{Scalar F} `{Collaborators F Image}.

(** [load_catalog] never returns an index with no rows. *)
Lemma load_catalog_nonempty csv_path (cat : catalog F) :
  load_catalog csv_path = Ok cat →
  cat_rows cat ≠ [] ∧ shape0 (cat_img_embs cat) ≠ 0%nat ∧
  shape0 (cat_txt_embs cat) ≠ 0%nat.
Proof.
  intros Hload.
  destruct (load_catalog_Mat csv_path cat Hload)
    as (D1 & D2 & irows & trows & -> & -> & Hi & Ht & Hne).
  simpl. rewrite <-Hi, <-Ht. split_and!; [done|..]; by destruct (cat_rows cat).
Qed.

(** When the CSV is read, has its four columns, and no line's image
    resolves, [load_catalog] raises "Catalog is empty". *)
Lemma load_catalog_all_skipped csv_path (t : csv_table) :
  read_csv csv_path = Ok t →
  Forall (λ k, k ∈ fieldnames t) required →
  Forall (λ r, resolvable csv_path r = false) (records t) →
  @load_catalog F Image _ csv_path = Raise (RuntimeError catalog_empty_msg).
Proof.
  intros Hread Hcols Hskip. unfold load_catalog. rewrite Hread. simpl.
  rewrite bool_decide_eq_false_2.
  2:{ intros Hnil. apply Forall_cons_1 in Hcols as [Hin _].
      rewrite Hnil in Hin. by apply not_elem_of_nil in Hin. }
  assert (filter (λ k, k ∉ fieldnames t) required = []) as ->.
  { clear -Hcols. induction Hcols as [|k ks Hk _ IH]; [done|].
    rewrite filter_cons, decide_False by (by intros Hn). exact IH. }
  simpl. by rewrite load_catalog_loop_all_skipped.
Qed.

(** A forced build that fails leaves the whole world as it was. *)
Lemma _build_catalog_forced_failure csv_path (w : World F) e :
  load_catalog csv_path = Raise e →
  _build_catalog csv_path true w = (w, Raise e).
Proof. intros Hload. unfold _build_catalog. run_M. by rewrite Hload. Qed.

(** An unforced build that fails leaves the world as the cache load
    attempt left it. *)
Lemma _build_catalog_failure csv_path (w w1 : World F) e :
  load_catalog csv_path = Raise e →
  _try_load_cache w = (w1, Ok false) →
  _build_catalog csv_path false w = (w1, Raise e).
Proof.
  intros Hload Hcache. unfold _build_catalog.
  unfold mbind at 1. unfold M_bind at 1. rewrite Hcache.
  run_M. by rewrite Hload.
Qed.

(** A build that succeeds installs the catalog [load_catalog] returned and
    writes it to the cache. *)
Lemma _build_catalog_success csv_path (force : bool) (w w1 : World F) (cat : catalog F) :
  load_catalog csv_path = Ok cat →
  (if force then w1 = w else _try_load_cache w = (w1, Ok false)) →
  ∃ w' r D,
    _build_catalog csv_path force w = (w', Ok r) ∧
    shape1 (cat_img_embs cat) = Ok D ∧
    index_of (state w') =
      (cat_rows cat, Some (cat_img_embs cat), Some (cat_txt_embs cat),
       Some (Z.of_nat D)) ∧
    state w' = rebuilt (state w1) cat ∧
    status r = "success" ∧ catalog_size r = length (cat_rows cat).
Proof.
  intros Hload Hpre.
  destruct (load_catalog_Mat csv_path cat Hload)
    as (D1 & D2 & irows & trows & Hi & Ht & _).
  unfold _build_catalog, _save_cache, report.
  destruct force.
  - subst w1. run_M. rewrite Hload. simpl. rewrite Hi. simpl.
    eexists _, _, D1. split; [reflexivity|]. simpl.
    unfold rebuilt, index_of, store_dim. simpl. rewrite Hi, Ht. by simpl.
  - unfold mbind at 1. unfold M_bind at 1. rewrite Hpre.
    run_M. rewrite Hload. simpl. rewrite Hi. simpl.
    eexists _, _, D1. split; [reflexivity|]. simpl.
    unfold rebuilt, index_of, store_dim. simpl. rewrite Hi, Ht. by simpl.
Qed.
End BuildFacts.

(** C9, at the failing input. No image of the CSV resolves and the cache's
    array container lacks [txt_embs]: the unforced build raises "Catalog
    is empty", and the index it leaves is not the one that was active (the
    failed cache load has replaced [state.img_embs]). *)
Theorem _build_catalog_empty_after_partial_load :
  ∃ w',
    @_build_catalog _ _ Demo.bare Demo.csv_path false
      (Demo.world Demo.state_ab Demo.cache_no_txt)
    = (w', Raise (RuntimeError catalog_empty_msg)) ∧
    img_embs (state w') = Some (Mat 2 [[Demo.f32 0; Demo.f32 1]]) ∧
    catalog_rows (state w') = catalog_rows Demo.state_ab ∧
    index_of (state w') ≠ index_of Demo.state_ab.
Proof.
  eexists. split_and!; [vm_compute; reflexivity|reflexivity..|].
  vm_compute. congruence.
Qed.

(** ** Paths *)

Lemma has_slash_app (a b : string) :
  has_slash (a +:+ b) = has_slash a || has_slash b.
Proof.
  induction a as [|c a IH]; simpl; [done|]. by rewrite IH, orb_assoc.
Qed.

Lemma path_name_no_slash (s : string) : has_slash (path_name s) = false.
Proof.
  induction s as [|c s IH]; simpl; [done|].
  destruct (has_slash s) eqn:Hs; [done|].
  case_bool_decide as Hc; [done|]. simpl.
  by rewrite bool_decide_eq_false_2, Hs.
Qed.

Lemma substring_no_slash (s : string) (n m : nat) :
  has_slash s = false → has_slash (substring n m s) = false.
Proof.
  revert n m. induction s as [|c s IH]; intros n m Hs; simpl in *.
  - by destruct n, m.
  - apply orb_false_iff in Hs as [Hc Hs].
    destruct n, m; simpl; rewrite ?Hc, ?IH; done.
Qed.

Lemma path_stem_no_slash (s : string) : has_slash (path_stem s) = false.
Proof.
  unfold path_stem. pose proof (path_name_no_slash s) as Hn.
  destruct (rfind_dot _) as [i|]; [|done].
  destruct (_ && _); [|done]. by apply substring_no_slash.
Qed.

(** The visualization never lands on the upload: its name has no "/"
    after "runs/". *)
Lemma vis_path_ne_upload_path (p : string) (stamp : Z) (filename : string) :
  "runs/" +:+ path_stem p +:+ "_vis.jpg" ≠ upload_path stamp filename.
Proof.
  unfold upload_path. simpl. intros [= Heq].
  apply (f_equal has_slash) in Heq.
  rewrite !has_slash_app, path_stem_no_slash in Heq. simpl in Heq. done.
Qed.

(** ** recommend *)

Section RecommendFacts.
Context {F Image : Type} `{Scalar F} `{Collaborators F Image}.

#[local] Arguments upload_path : simpl never.
#[local] Arguments path_stem : simpl never.
#[local] Arguments path_name : simpl never.
#[local] Arguments String.append : simpl never.

Lemma recommend_not_ready filename content topk (alpha_img : F) return_vis (w : World F) :
  img_embs (state w) = None ∨ txt_embs (state w) = None →
  recommend filename content topk alpha_img return_vis w = (w, Ok (Resp400 not_ready_msg)).
Proof.
  unfold recommend. run_M.
  intros [Hn|Hn]; rewrite Hn; [|destruct (img_embs _)]; done.
Qed.

Lemma recommend_ready filename content topk (alpha_img : F) return_vis (w : World F) :
  is_Some (img_embs (state w)) → is_Some (txt_embs (state w)) →
  ∃ w' r,
    recommend filename content topk alpha_img return_vis w = (w', r) ∧
    runs w' !! upload_path (clock_ms w) filename = Some content ∧
    state w' = state w ∧ cache w' = cache w ∧
    (∀ e, r = Raise e →
       runs w' = <[upload_path (clock_ms w) filename := content]> (runs w)).
Proof.
  intros [img Himg] [txt Htxt]. unfold recommend, draw_and_save. run_M.
  rewrite Himg, Htxt. simpl. rewrite lookup_insert_eq.
  destruct (detect_instances content) as [[pil insts]|e]; simpl.
  2:{ eexists _, _. split; [reflexivity|]. simpl.
      by rewrite lookup_insert_eq. }
  destruct (traverse _ insts) as [results|e]; simpl.
  2:{ eexists _, _. split; [reflexivity|]. simpl.
      by rewrite lookup_insert_eq. }
  destruct (return_vis && _); simpl.
  2:{ eexists _, _. split; [reflexivity|]. simpl.
      by rewrite lookup_insert_eq. }
  destruct (forallb _ results); simpl.
  - eexists _, _. split; [reflexivity|]. simpl.
    rewrite lookup_insert_ne by apply vis_path_ne_upload_path.
    by rewrite lookup_insert_eq.
  - eexists _, _. split; [reflexivity|]. simpl.
    by rewrite lookup_insert_eq.
Qed.
End RecommendFacts.




(** ** The order of IEEE floats *)

Lemma SFltb_SFopp (x y : spec_float) : SFltb (SFopp x) (SFopp y) = SFltb y x.
Proof.
  unfold SFltb, SFcompare.
  destruct x as [sx|sx| |sx mx ex], y as [sy|sy| |sy my ey]; simpl;
    try reflexivity; try (by destruct sx); try (by destruct sy);
    try (by destruct sx, sy).
  destruct sx, sy; simpl; try reflexivity.
  - rewrite (Z.compare_antisym ey ex).
    destruct (ey ?= ex)%Z; simpl; try reflexivity.
    change (Pcompare mx my Eq) with (mx ?= my)%positive.
    change (Pcompare my mx Eq) with (my ?= mx)%positive.
    rewrite (Pos.compare_antisym my mx). by destruct (my ?= mx)%positive.
  - rewrite (Z.compare_antisym ey ex).
    destruct (ey ?= ex)%Z; simpl; try reflexivity.
    change (Pcompare mx my Eq) with (mx ?= my)%positive.
    change (Pcompare my mx Eq) with (my ?= mx)%positive.
    rewrite (Pos.compare_antisym my mx). by destruct (my ?= mx)%positive.
Qed.

#[global] Instance ieee_order (prec emax : Z) :
  @ScalarOrder spec_float (IEEE.scalar prec emax).
Proof. constructor. exact SFltb_SFopp. Qed.

#[global] Instance demo_order : @ScalarOrder spec_float Demo.demo_scalar.
Proof. exact (ieee_order 24 128). Qed.

(** ** Ranking *)

Section RankFacts.
Context {F Image : Type} `{ScalarOrder F} `{Collaborators F Image}.

Lemma traverse_Forall2 {A B} (f : A → result B) (l : list A) (bs : list B) :
  traverse f l = Ok bs ↔ Forall2 (λ a b, f a = Ok b) l bs.
Proof.
  revert bs. induction l as [|a l IH]; intros bs; simpl.
  - split; [intros [= <-]; constructor|]. by intros ->%Forall2_nil_inv_l.
  - split.
    + intros (b & Hb & Hrest)%bind_Ok.
      apply bind_Ok in Hrest as (bs' & Hbs & [= <-]).
      constructor; [done|]. by apply IH.
    + intros (b & bs' & Hb & Hbs & ->)%Forall2_cons_inv_l.
      rewrite Hb. simpl. apply IH in Hbs. by rewrite Hbs.
Qed.

Lemma reco_of_Ok (rows : list CatalogRow) (score : list F) (j : nat) (r : Reco F) :
  reco_of rows score j = Ok r ↔
  ∃ row sc, rows !! j = Some row ∧ score !! j = Some sc ∧ r = mk_reco row sc.
Proof.
  unfold reco_of, index.
  destruct (rows !! j) as [row|], (score !! j) as [sc|]; simpl; split;
    try done; try (by intros (? & ? & ? & ? & ?)).
  - intros [= <-]. by exists row, sc.
  - by intros (? & ? & [= <-] & [= <-] & ->).
Qed.

Lemma rank_ranks (rows : list CatalogRow) (score : list F) (k : Z) (recos : list (Reco F)) :
  rank rows score k = Ok recos ↔ ranks rows score (top_indices score k) recos.
Proof.
  unfold rank, ranks. rewrite traverse_Forall2.
  split; intros Hf; (eapply Forall2_impl; [exact Hf|]); intros j r Hr;
    by apply reco_of_Ok.
Qed.

Lemma ranks_total (rows : list CatalogRow) (score : list F) (idx : list nat) :
  length score = length rows →
  Forall (λ j, j < length rows)%nat idx →
  ∃ recos, ranks rows score idx recos.
Proof.
  intros Hlen. induction 1 as [|j idx Hj _ [recos IH]].
  - exists []. constructor.
  - destruct (lookup_lt_is_Some_2 rows j Hj) as [row Hrow].
    destruct (lookup_lt_is_Some_2 score j) as [sc Hsc]; [by rewrite Hlen|].
    exists (mk_reco row sc :: recos). constructor; [|done]. by exists row, sc.
Qed.

(** [l[:k]] is a prefix of [l], of length [k] cut to [len(l)] when
    [k >= 0]. *)
Lemma slice_to_take {A} (k : Z) (l : list A) :
  ∃ n, slice_to k l = take n l ∧ (0 ≤ k → n = Z.to_nat k) ∧
       (k < 0 → n = (length l - Z.to_nat (- k))%nat).
Proof.
  unfold slice_to. destruct (Z.leb_spec 0 k).
  - exists (Z.to_nat k). split_and!; [done|done|lia].
  - exists (length l - Z.to_nat (- k))%nat. split_and!; [done|lia|done].
Qed.

Lemma is_argsort_bound (xs : list F) (out : list nat) :
  is_argsort xs out →
  length out = length xs ∧ Forall (λ j, j < length xs)%nat out.
Proof.
  intros [Hperm _]. split.
  - by rewrite Hperm, length_seq.
  - apply Forall_forall. intros j Hj. rewrite Hperm in Hj.
    apply elem_of_seq in Hj. lia.
Qed.

Lemma sorted_idx_lookup (xs : list F) (out : list nat) (p q i j : nat) :
  sorted_idx xs out = true → (p < q)%nat →
  out !! p = Some i → out !! q = Some j → lt_at xs j i = false.
Proof.
  revert p q. induction out as [|i0 out IH]; intros p q Hs Hpq Hp Hq; [done|].
  simpl in Hs. apply andb_true_iff in Hs as [Hhd Htl].
  destruct q as [|q]; [lia|]. simpl in Hq.
  destruct p as [|p]; simpl in Hp.
  - injection Hp as ->. rewrite forallb_forall in Hhd.
    apply negb_true_iff, Hhd, list_elem_of_In, list_elem_of_lookup. eauto.
  - apply (IH p q); [done|lia|done..].
Qed.

Lemma ranks_descending (rows : list CatalogRow) (score : list F)
    (idx : list nat) (recos : list (Reco F)) :
  sorted_idx (map fneg score) idx = true →
  ranks rows score idx recos → descending recos.
Proof.
  intros Hsorted Hranks p q a b Hpq Ha Hb.
  destruct (Forall2_lookup_r _ _ _ _ _ Hranks Ha) as (i & Hi & rowi & sci & _ & Hsci & ->).
  destruct (Forall2_lookup_r _ _ _ _ _ Hranks Hb) as (j & Hj & rowj & scj & _ & Hscj & ->).
  pose proof (sorted_idx_lookup _ _ _ _ _ _ Hsorted Hpq Hi Hj) as Hlt.
  unfold lt_at in Hlt. rewrite !list_lookup_fmap, Hsci, Hscj in Hlt. simpl in Hlt.
  unfold sort_lt in Hlt. apply orb_false_iff in Hlt as [Hlt _].
  simpl. by rewrite <-flt_fneg.
Qed.

Lemma descending_take (recos : list (Reco F)) (n : nat) :
  descending recos → descending (take n recos).
Proof.
  intros Hd p q a b Hpq Ha Hb.
  apply lookup_take_Some in Ha as [Ha _]. apply lookup_take_Some in Hb as [Hb _].
  by apply (Hd p q).
Qed.

(** In a descending list every entry of a prefix scores at least as much
    as every entry behind the prefix. *)
Lemma descending_top (recos : list (Reco F)) (n : nat) (a b : Reco F) :
  descending recos → a ∈ take n recos → b ∈ drop n recos →
  flt (r_score a) (r_score b) = false.
Proof.
  intros Hd (p & Hp)%list_elem_of_lookup (q & Hq)%list_elem_of_lookup.
  apply lookup_take_Some in Hp as [Hp Hpn]. rewrite lookup_drop in Hq.
  apply (Hd p (n + q)%nat); [lia|done..].
Qed.

Lemma cos_sim_attr_populated (emb : list F) (D : nat) (rows : list (list F)) :
  length emb = D →
  cos_sim_attr emb (Some (Mat D rows)) = Ok (map (cos_row emb) rows).
Proof. intros <-. apply cos_sim_Mat. Qed.

(** On a populated index the fused score is defined, one entry per row. *)
Lemma score_of_populated (s : State F) (N D : nat) (emb : list F) (alpha_img : F) :
  populated s N D → length emb = D →
  ∃ score, score_of s emb alpha_img = Ok score ∧ length score = N.
Proof.
  intros (irows & trows & Hi & Ht & Hli & Hlt & _) Hemb.
  unfold score_of. rewrite Hi, Ht, !cos_sim_attr_populated by done. simpl.
  unfold fused_score, broadcast2. rewrite !length_map, Hli, Hlt, Nat.eqb_refl.
  eexists. split; [done|].
  rewrite length_zip_with, !length_map. lia.
Qed.

(** The ranking of the whole index, of which every [top_k] is a prefix. *)
Lemma full_ranking (s : State F) (N D : nat) (emb : list F) (alpha_img : F)
    (score : list F) :
  populated s N D → length score = N →
  is_argsort (map fneg score) (argsort (map fneg score)) →
  ∃ full,
    ranks (catalog_rows s) score (argsort (map fneg score)) full ∧
    length full = N ∧ descending full ∧
    ∀ k, ∃ n, rank (catalog_rows s) score k = Ok (take n full) ∧
              (0 ≤ k → n = Z.to_nat k) ∧
              (k < 0 → n = (N - Z.to_nat (- k))%nat).
Proof.
  intros (irows & trows & _ & _ & _ & _ & Hrows) Hscore Hsort.
  destruct (is_argsort_bound _ _ Hsort) as [Hlen Hbound].
  rewrite length_map in Hlen, Hbound.
  destruct (ranks_total (catalog_rows s) score (argsort (map fneg score)))
    as [full Hfull]; [congruence|by rewrite Hrows, <-Hscore|].
  exists full. split_and!; [done| |by eapply ranks_descending, Hfull; apply Hsort|].
  - by rewrite <-(Forall2_length _ _ _ Hfull), Hlen.
  - intros k. unfold rank, top_indices.
    destruct (slice_to_take k (argsort (map fneg score))) as (n & -> & Hn1 & Hn2).
    exists n. split_and!; [|done|by rewrite <-Hscore, <-Hlen].
    apply traverse_Forall2. apply Forall2_take.
    eapply Forall2_impl; [exact Hfull|]. intros j r Hr. by apply reco_of_Ok.
Qed.
End RankFacts.

(** C7, as the code has it. On an index of [N] rows, for every [k >= 0]
    the ranked list of an instance has [min(k, N)] entries, none followed
    by one with a larger fused score: it is empty for [k = 0], and for
    [k >= N] it has exactly [N] entries, one for each row. ([np.argsort]
    is taken to meet its contract on the scores at hand. A negative [k] is
    not clamped.) *)
Theorem rank_length {F Image : Type} `{ScalarOrder F} `{Collaborators F Image}
    (s : State F) (N D : nat) (inst : DetInstance F Image) (emb : list F)
    (alpha_img : F) (k : Z) :
  populated s N D →
  encode_image (crop inst) = Ok emb → length emb = D →
  (∀ score, score_of s emb alpha_img = Ok score →
     is_argsort (map fneg score) (argsort (map fneg score))) →
  0 ≤ k →
  ∃ score r,
    score_of s emb alpha_img = Ok score ∧
    rank_instance s k alpha_img inst = Ok r ∧
    rank (catalog_rows s) score k = Ok (top_k r) ∧
    length (top_k r) = (Z.to_nat k `min` N)%nat ∧
    descending (top_k r) ∧
    (k = 0 → top_k r = []) ∧
    (Z.of_nat N ≤ k →
       length (top_k r) = N ∧
       argsort (map fneg score) ≡ₚ seq 0 N ∧
       ranks (catalog_rows s) score (argsort (map fneg score)) (top_k r)).
Proof.
  intros Hpop Henc Hemb Hsort Hk.
  destruct (score_of_populated s N D emb alpha_img Hpop Hemb) as (score & Hscore & Hlen).
  specialize (Hsort score Hscore).
  destruct (full_ranking s N D emb alpha_img score Hpop Hlen Hsort)
    as (full & Hfull & Hlenf & Hdesc & Hall).
  destruct (Hall k) as (n & Hrank & Hn & _). specialize (Hn Hk). subst n.
  exists score. eexists. split; [done|].
  unfold rank_instance. rewrite Henc. simpl. rewrite Hscore. simpl.
  rewrite Hrank. simpl. split; [reflexivity|]. simpl.
  split_and!; [done| |by apply descending_take|by intros ->|].
  - by rewrite length_take, Hlenf.
  - intros HN. rewrite take_ge by lia. split_and!; [done| |done].
    destruct Hsort as [Hperm _]. by rewrite length_map, Hlen in Hperm.
Qed.

(** Asking for five matches on the two rows of the API tests' state. *)
Lemma rank_length_witness :
  ∃ score r,
    score_of Demo.state_ab Demo.query Demo.alpha = Ok score ∧
    @rank_instance _ _ _ Demo.full Demo.state_ab 5 Demo.alpha Demo.inst = Ok r ∧
    length (top_k r) = 2%nat ∧
    descending (top_k r).
Proof.
  destruct (@rank_length _ _ _ demo_order Demo.full Demo.state_ab 2 2 Demo.inst
              Demo.query Demo.alpha 5)
    as (score & r & Hscore & Hr & _ & Hlen & Hdesc & _).
  - eexists _, _. by split_and!.
  - reflexivity.
  - reflexivity.
  - intros score Hscore. vm_compute in Hscore. injection Hscore as <-.
    apply (@bool_decide_unpack _ (is_argsort_dec _ _)). vm_compute. exact I.
  - lia.
  - exists score, r. split_and!; [exact Hscore|exact Hr|exact Hlen|exact Hdesc].
Defined.

(** C7, counterexample. With [topk = -1] on an index of two rows the
    ranked list has one entry: a negative [k] drops rows from the end of
    the ranking instead of giving the empty list. *)
Lemma rank_negative_k_not_clamped :
  ∃ r,
    @rank_instance _ _ _ Demo.full Demo.state_ab (-1) Demo.alpha Demo.inst = Ok r ∧
    map r_sku_id (top_k r) = ["sku-a"] ∧
    length (top_k r) ≠ 0%nat.
Proof. eexists. split_and!; [vm_compute; reflexivity|reflexivity|done]. Qed.




(** ** A rebuild next to a request in flight *)

Section Interleaving.
Context {F : Type} (s : State F) (cat : catalog F) (k : nat).

(** The shared state after the first [j] stores of the rebuild. *)
Local Notation "'after' j" := (foldl (λ s f, f s) s (take j (rebuild_writes cat)))
  (at level 10, j at level 9, only parsing).

Lemma after_all (j : nat) : (4 ≤ j)%nat → after j = rebuilt s cat.
Proof. intros Hj. unfold rebuilt. by rewrite take_ge by (simpl; lia). Qed.

(** Whatever the number of stores done, a field read gives the value the
    field had before the rebuild or the one it has after it. *)
Lemma observe_after (j : nat) (r : field_read) :
  observe r (after j) = observe r s ∨
  observe r (after j) = observe r (rebuilt s cat).
Proof.
  unfold rebuilt.
  destruct j as [|[|[|[|j]]]], r; simpl; auto;
    unfold store_dim; simpl; destruct (shape1 (cat_img_embs cat));
    rewrite ?take_nil; simpl; auto.
Qed.

Lemma drop_cons_inv {A} (l : list A) (n : nat) (x : A) (rest : list A) :
  drop n l = x :: rest → l !! n = Some x ∧ rest = drop (S n) l.
Proof.
  intros Hd. split.
  - rewrite <-(Nat.add_0_r n), <-lookup_drop, Hd. done.
  - assert (rest = drop 1 (drop n l)) as -> by (by rewrite Hd).
    by rewrite drop_drop, Nat.add_1_r.
Qed.

#[local] Arguments rebuild_writes : simpl never.
#[local] Arguments instance_reads : simpl never.

Lemma step_interleaved (t : thread) (c c' : config F) :
  step t c = Some c' → interleaved s cat k c → interleaved s cat k c'.
Proof.
  intros Hstep (j & m & Hw & Hs & Hr & Hseen). destruct t; simpl in Hstep.
  - destruct (writer c) as [|f rest] eqn:Hwc; [done|]. injection Hstep as <-.
    symmetry in Hw. apply drop_cons_inv in Hw as [Hf ->].
    exists (S j), m. cbn [writer shared reader seen_so_far].
    split_and!; [done| |done..].
    rewrite (take_S_r _ _ _ Hf), foldl_app. cbn [foldl]. by rewrite Hs.
  - destruct (reader c) as [|r rest] eqn:Hrc; [done|]. injection Hstep as <-.
    symmetry in Hr. apply drop_cons_inv in Hr as [Hrd ->].
    exists j, (S m). cbn [writer shared reader seen_so_far].
    split_and!; [done..|].
    rewrite (take_S_r _ _ _ Hrd). apply Forall2_app; [done|].
    constructor; [|constructor]. rewrite Hs.
    destruct (observe_after j r) as [->| ->]; auto.
Qed.

Lemma run_interleaved (sched : list thread) (c c' : config F) :
  run sched c = Some c' → interleaved s cat k c → interleaved s cat k c'.
Proof.
  revert c. induction sched as [|t sched IH]; intros c Hrun Hinv; simpl in Hrun.
  - by injection Hrun as <-.
  - destruct (step t c) as [c1|] eqn:Hstep; [|done]. simpl in Hrun.
    eapply IH; [done|]. by eapply step_interleaved.
Qed.

Lemma start_interleaved : interleaved s cat k (start s cat k).
Proof. exists 0%nat, 0%nat. simpl. split_and!; first [done|constructor]. Qed.
End Interleaving.

Section Schedules.
Context {F : Type}.

Lemma run_app (sched1 sched2 : list thread) (c : config F) :
  run (sched1 ++ sched2) c = run sched1 c ≫= run sched2.
Proof.
  revert c. induction sched1 as [|t sched1 IH]; intros c; simpl; [done|].
  destruct (step t c); simpl; [apply IH|done].
Qed.

(** The request alone: it sees the state as it is. *)
Lemma run_readers (sh : State F) (wr : list (State F → State F))
    (rd : list field_read) (sn : list (seen F)) :
  run (replicate (length rd) Reader)
      {| shared := sh; writer := wr; reader := rd; seen_so_far := sn |}
  = Some {| shared := sh; writer := wr; reader := [];
            seen_so_far := sn ++ snapshot sh rd |}.
Proof.
  revert sn. induction rd as [|r rd IH]; intros sn; simpl.
  - by rewrite app_nil_r.
  - rewrite IH. by rewrite <-app_assoc.
Qed.

(** The rebuild alone: it performs its stores in order. *)
Lemma run_writers (sh : State F) (wr : list (State F → State F))
    (rd : list field_read) (sn : list (seen F)) :
  run (replicate (length wr) Writer)
      {| shared := sh; writer := wr; reader := rd; seen_so_far := sn |}
  = Some {| shared := foldl (λ s f, f s) sh wr; writer := []; reader := rd;
            seen_so_far := sn |}.
Proof.
  revert sh. induction wr as [|f wr IH]; intros sh; simpl; [done|]. by rewrite IH.
Qed.

(** Once the request has done its reads nothing changes what it saw. *)
Lemma run_reader_done (sched : list thread) (c c' : config F) :
  reader c = [] → run sched c = Some c' → seen_so_far c' = seen_so_far c.
Proof.
  revert c. induction sched as [|t sched IH]; intros c Hrd Hrun; simpl in Hrun.
  - by injection Hrun as <-.
  - destruct t; simpl in Hrun.
    + destruct (writer c) as [|f rest]; [done|]. simpl in Hrun.
      by apply IH in Hrun.
    + by rewrite Hrd in Hrun.
Qed.

(** Once the rebuild has done its stores the request reads the new state. *)
Lemma run_writer_done (sched : list thread) (c c' : config F) :
  writer c = [] → run sched c = Some c' → reader c' = [] →
  seen_so_far c' = seen_so_far c ++ snapshot (shared c) (reader c).
Proof.
  revert c. induction sched as [|t sched IH]; intros c Hwr Hrun Hdone; simpl in Hrun.
  - injection Hrun as <-. rewrite Hdone. simpl. by rewrite app_nil_r.
  - destruct t; simpl in Hrun.
    + by rewrite Hwr in Hrun.
    + destruct (reader c) as [|r rest]; [done|]. simpl in Hrun.
      apply IH in Hrun; [|done..]. simpl in Hrun. by rewrite Hrun, <-app_assoc.
Qed.
End Schedules.




(** ** Build and cache together *)

Section BuildCache.
Context {F Image : Type} `{Scalar F} `{Collaborators F Image}.

(** What a build that returns has done: it has loaded the cache, or it has
    installed and cached the catalog [load_catalog] returned. *)
Lemma _build_catalog_Ok csv_path (force : bool) (w w1 : World F) (r : BuildReport) :
  _build_catalog csv_path force w = (w1, Ok r) →
  (force = false ∧ _try_load_cache w = (w1, Ok true) ∧ status r = "loaded") ∨
  (∃ wc cat D,
     (if force then wc = w else _try_load_cache w = (wc, Ok false)) ∧
     load_catalog csv_path = Ok cat ∧
     shape1 (cat_img_embs cat) = Ok D ∧
     state w1 = rebuilt (state wc) cat ∧
     cache w1 = built_cache cat D (clock_ms wc) ∧
     runs w1 = runs wc ∧ clock_ms w1 = clock_ms wc ∧
     status r = "success").
Proof.
  intros Hrun.
  assert (∃ wc b, (if force then (wc, b) = (w, false)
                   else _try_load_cache w = (wc, Ok b))) as (wc & b & Hpre).
  { destruct force; [by exists w, false|].
    destruct (_try_load_cache_total w) as (s' & b & Hc). eauto. }
  assert (_build_catalog csv_path force w =
          (if b then report "loaded" "Loaded embeddings from cache." wc
           else _build_catalog csv_path true wc)) as Heq.
  { unfold _build_catalog. destruct force.
    - injection Hpre as -> ->. done.
    - unfold mbind at 1. unfold M_bind at 1. rewrite Hpre. by destruct b. }
  rewrite Heq in Hrun. destruct b.
  - left. unfold report in Hrun. run_M. injection Hrun as <- <-.
    destruct force; [done|]. by split_and!.
  - right. destruct (load_catalog csv_path) as [cat|e] eqn:Hload.
    2:{ by rewrite (_build_catalog_forced_failure _ _ _ Hload) in Hrun. }
    destruct (load_catalog_Mat csv_path cat Hload)
      as (D1 & D2 & irows & trows & Hi & Ht & _).
    exists wc, cat, D1.
    assert (if force then wc = w else _try_load_cache w = (wc, Ok false)) as Hpre'.
    { destruct force; [by injection Hpre|done]. }
    unfold _build_catalog, _save_cache, report in Hrun. run_M.
    rewrite Hload in Hrun. simpl in Hrun. rewrite Hi in Hrun. simpl in Hrun.
    injection Hrun as <- <-. simpl.
    split_and!; try done;
      unfold rebuilt, store_dim, built_cache; simpl; by rewrite ?Hi, ?Ht.
Qed.
End BuildCache.

(** Cache round trip. Whenever a build returns (it loaded the cache or it
    rebuilt and saved), the cache directory it leaves loads again, from
    any state (a restarted server, say), to the index the build left:
    the same rows, image matrix, text matrix and dimension. *)
Theorem _build_catalog_cache_round_trip {F Image : Type} `{Scalar F}
    `{Collaborators F Image} csv_path (force : bool) (w w1 : World F)
    (r : BuildReport) (s0 : State F) :
  _build_catalog csv_path force w = (w1, Ok r) →
  ∃ w2,
    _try_load_cache (with_state (λ _, s0) w1) = (w2, Ok true) ∧
    index_of (state w2) = index_of (state w1) ∧
    catalog_path (state w2) = catalog_path s0 ∧
    cache w2 = cache w1.
Proof.
  intros Hrun. apply _build_catalog_Ok in Hrun
    as [(_ & Hload & _)|(wc & cat & D & _ & Hload & HD & Hst & Hcache & _)].
  - apply _try_load_cache_loads_iff in Hload
      as (npz & o & img & txt & rows & d & Hn & Hi & Himg & Htxt & Hrows & Hd & ->).
    eexists. split.
    + apply _try_load_cache_loads_iff.
      exists npz, o, img, txt, rows, d. by split_and!.
    + done.
  - destruct (load_catalog_Mat csv_path cat Hload)
      as (D1 & D2 & irows & trows & Hi & Ht & _).
    eexists. split.
    + apply _try_load_cache_loads_iff.
      exists (<["txt_embs" := cat_txt_embs cat]> (<["img_embs" := cat_img_embs cat]> ∅)),
        {| m_embedding_dim := Some (JInt (Z.of_nat D));
           m_ids := Some (map sku_id (cat_rows cat));
           m_rows := Some (cat_rows cat);
           m_updated_at := Some (clock_ms wc / 1000) |},
        (cat_img_embs cat), (cat_txt_embs cat), (cat_rows cat), (Z.of_nat D).
      simpl. rewrite Hcache. simpl.
      split_and!;
        first [ done | by rewrite lookup_insert_eq
              | by rewrite lookup_insert_ne, lookup_insert_eq | by rewrite HD ].
    + simpl. rewrite Hst, Hcache. split_and!; try done.
      unfold index_of, rebuilt, rebuild_writes, store_dim, loaded_state.
      rewrite Hi in *. simpl in *. by injection HD as ->.
Qed.

(** A forced build of the small deployment, reloaded into a fresh state. *)
Lemma _build_catalog_cache_round_trip_witness :
  ∃ w1 r w2,
    @_build_catalog _ _ Demo.full Demo.csv_path true
      (Demo.world Demo.state_ab Demo.no_cache) = (w1, Ok r) ∧
    _try_load_cache (with_state (λ _, state_init Demo.csv_path) w1) = (w2, Ok true) ∧
    index_of (state w2) = index_of Demo.state_abc.
Proof.
  destruct (@_build_catalog _ _ Demo.full Demo.csv_path true
              (Demo.world Demo.state_ab Demo.no_cache)) as [w1 [r|e]] eqn:Hrun;
    [|by vm_compute in Hrun].
  destruct (@_build_catalog_cache_round_trip _ _ Demo.demo_scalar Demo.full
              Demo.csv_path true _ w1 r (state_init Demo.csv_path) Hrun)
    as (w2 & Hload & Hidx & _).
  exists w1, r, w2. split_and!; [reflexivity|exact Hload|].
  rewrite Hidx. vm_compute in Hrun. injection Hrun as <- _. reflexivity.
Defined.

(** With a cache that loads, an unforced build returns the "loaded" report
    for the cache's index and never reads the catalog source: the CSV can
    be missing or malformed. *)
Theorem _build_catalog_loaded {F Image : Type} `{Collaborators F Image}
    csv_path (w w1 : World F) :
  _try_load_cache w = (w1, Ok true) →
  _build_catalog csv_path false w =
    (w1, Ok {| status := "loaded";
               catalog_size := length (catalog_rows (state w1));
               report_dim := embedding_dim (state w1);
               message := "Loaded embeddings from cache." |}).
Proof.
  intros Hload. unfold _build_catalog.
  unfold mbind at 1. unfold M_bind at 1. by rewrite Hload.
Qed.

(** An unforced build over the mismatched cache, with no CSV anywhere. *)
Lemma _build_catalog_loaded_witness :
  ∃ w1 r,
    @_build_catalog _ _ (Demo.env [] argsort_stable) "nowhere.csv" false
      (Demo.world (state_init Demo.csv_path) Demo.cache_mismatch) = (w1, Ok r) ∧
    status r = "loaded" ∧ catalog_size r = 2%nat.
Proof.
  destruct (_try_load_cache (Demo.world (state_init Demo.csv_path) Demo.cache_mismatch))
    as [w1 [[|]|e]] eqn:Hload; try (by vm_compute in Hload).
  eexists w1, _. split.
  - exact (@_build_catalog_loaded _ _ (Demo.env [] argsort_stable) "nowhere.csv" _ w1 Hload).
  - vm_compute in Hload. injection Hload as <-. split; reflexivity.
Defined.

(** The manifest a successful rebuild writes lists the sku ids of the
    installed rows in row order, one per row of each matrix, and names the
    matrices' width as the dimension. *)
Theorem _build_catalog_manifest_aligned {F Image : Type} `{Scalar F}
    `{Collaborators F Image} csv_path (force : bool) (w w1 : World F)
    (r : BuildReport) :
  _build_catalog csv_path force w = (w1, Ok r) → status r = "success" →
  ∃ img txt o ids D,
    npz_file (cache w1) = Stored (<["txt_embs" := txt]> (<["img_embs" := img]> ∅)) ∧
    idx_file (cache w1) = Stored (JObject o) ∧
    img_embs (state w1) = Some img ∧ txt_embs (state w1) = Some txt ∧
    m_rows o = Some (catalog_rows (state w1)) ∧
    m_ids o = Some ids ∧ ids = map sku_id (catalog_rows (state w1)) ∧
    length ids = shape0 img ∧ length ids = shape0 txt ∧
    shape1 img = Ok D ∧ m_embedding_dim o = Some (JInt (Z.of_nat D)) ∧
    embedding_dim (state w1) = Some (Z.of_nat D).
Proof.
  intros Hrun Hsucc. apply _build_catalog_Ok in Hrun
    as [(_ & _ & Hst)|(wc & cat & D & _ & Hload & HD & Hst & Hcache & _)];
    [by rewrite Hst in Hsucc|].
  destruct (load_catalog_Mat csv_path cat Hload)
    as (D1 & D2 & irows & trows & Hi & Ht & Hli & Hlt & _).
  eexists (cat_img_embs cat), (cat_txt_embs cat), _, _, D.
  rewrite Hcache, Hst. unfold rebuilt, rebuild_writes, store_dim, built_cache.
  rewrite Hi, Ht in *. simpl in *. injection HD as ->.
  split_and!; try done; rewrite length_map; congruence.
Qed.

(** The forced build of the small deployment. *)
Lemma _build_catalog_manifest_aligned_witness :
  ∃ w1 r o,
    @_build_catalog _ _ Demo.full Demo.csv_path true
      (Demo.world (state_init Demo.csv_path) Demo.no_cache) = (w1, Ok r) ∧
    idx_file (cache w1) = Stored (JObject o) ∧
    m_ids o = Some ["sku-a"; "sku-b"; "sku-c"].
Proof.
  destruct (@_build_catalog _ _ Demo.full Demo.csv_path true
              (Demo.world (state_init Demo.csv_path) Demo.no_cache))
    as [w1 [r|e]] eqn:Hrun; [|by vm_compute in Hrun].
  destruct (@_build_catalog_manifest_aligned _ _ Demo.demo_scalar Demo.full
              Demo.csv_path true _ w1 r Hrun)
    as (img & txt & o & ids & D & _ & Hidx & _ & _ & _ & Hids & Hmap & _).
  { vm_compute in Hrun. injection Hrun as _ <-. reflexivity. }
  exists w1, r, o. split_and!; [reflexivity|exact Hidx|].
  rewrite Hids, Hmap. vm_compute in Hrun. injection Hrun as <- _. reflexivity.
Defined.

(** ** The routes *)

(** A rebuild whose source does not exist answers 400 "CSV not found" and
    changes nothing: the index, the configured source, the cache and the
    run directory stay as they were. *)
Theorem catalog_rebuild_source_not_found {F Image : Type} `{Collaborators F Image}
    (force : bool) (catalog_csv : option string) (w : World F) :
  path_exists (rebuild_source catalog_csv (catalog_path (state w))) = false →
  catalog_rebuild force catalog_csv w =
    (w, Ok (Rebuild400 ("CSV not found: " +:+
              rebuild_source catalog_csv (catalog_path (state w))))).
Proof. intros Hex. unfold catalog_rebuild. run_M. by rewrite Hex. Qed.

(** A rebuild from a file that is not there, on the API tests' state. *)
Lemma catalog_rebuild_source_not_found_witness :
  @catalog_rebuild _ _ Demo.full true (Some "elsewhere.csv")
    (Demo.world Demo.state_ab Demo.no_cache)
  = (Demo.world Demo.state_ab Demo.no_cache,
     Ok (Rebuild400 "CSV not found: elsewhere.csv")).
Proof.
  exact (@catalog_rebuild_source_not_found _ _ Demo.full true (Some "elsewhere.csv")
           (Demo.world Demo.state_ab Demo.no_cache) eq_refl).
Defined.

(** A forced rebuild whose source exists but whose build raises lets the
    exception through, keeps the index, the cache and the run directory,
    and has already made the new source the configured one. *)
Theorem catalog_rebuild_failure_switches_source {F Image : Type}
    `{Collaborators F Image} (catalog_csv : option string) (w : World F) e :
  path_exists (rebuild_source catalog_csv (catalog_path (state w))) = true →
  load_catalog (rebuild_source catalog_csv (catalog_path (state w))) = Raise e →
  catalog_rebuild true catalog_csv w =
    (with_state
       (set_catalog_path (rebuild_source catalog_csv (catalog_path (state w)))) w,
     Raise e).
Proof.
  intros Hex Hload. unfold catalog_rebuild.
  unfold mbind at 1. unfold M_bind at 1. unfold gets. rewrite Hex. simpl.
  unfold mbind at 1. unfold M_bind at 1. unfold assign, modify.
  unfold mbind at 1. unfold M_bind at 1.
  by rewrite (_build_catalog_forced_failure _ _ _ Hload).
Qed.

(** A forced rebuild from a CSV none of whose images is there. *)
Lemma catalog_rebuild_failure_switches_source_witness :
  ∃ w',
    @catalog_rebuild _ _ Demo.bare true (Some Demo.csv_path)
      (Demo.world (state_init "old.csv") Demo.no_cache)
    = (w', Raise (RuntimeError catalog_empty_msg)) ∧
    catalog_path (state w') = Demo.csv_path.
Proof.
  eexists. split.
  - apply (@catalog_rebuild_failure_switches_source _ _ Demo.bare (Some Demo.csv_path)
             (Demo.world (state_init "old.csv") Demo.no_cache));
      vm_compute; reflexivity.
  - reflexivity.
Defined.

(** A cache that did not load does not load at the next attempt either. *)
Lemma _try_load_cache_again {F : Type} (w w1 : World F) :
  _try_load_cache w = (w1, Ok false) →
  ∃ w2, _try_load_cache w1 = (w2, Ok false) ∧ cache w2 = cache w ∧ runs w2 = runs w.
Proof.
  intros Hc.
  destruct (_try_load_cache_total w) as (s1 & b1 & Hc1).
  rewrite Hc in Hc1. injection Hc1 as -> _.
  destruct (_try_load_cache_total (with_state (λ _, s1) w))
    as (s2 & [|] & Hc2).
  - exfalso. apply _try_load_cache_loads_iff in Hc2
      as (npz & o & img & txt & rows & d & Hn & Hi & Himg & Htxt & Hrows & Hd & _).
    assert (_try_load_cache w =
            (with_state (loaded_state img txt rows d) w, Ok true)) as Hyes.
    { apply _try_load_cache_loads_iff. exists npz, o, img, txt, rows, d.
      by split_and!. }
    rewrite Hc in Hyes. done.
  - eexists. split; [exact Hc2|]. done.
Qed.

(** Startup with a cache that does not load and a catalog source that
    exists builds the catalog; when that build raises, startup raises. *)
Theorem _startup_build_failure {F Image : Type} `{Collaborators F Image}
    (w w1 : World F) e :
  _try_load_cache w = (w1, Ok false) →
  path_exists (catalog_path (state w1)) = true →
  load_catalog (catalog_path (state w1)) = Raise e →
  ∃ w', _startup w = (w', Raise e) ∧ cache w' = cache w ∧ runs w' = runs w.
Proof.
  intros Hcache Hex Hload.
  destruct (_try_load_cache_again w w1 Hcache) as (w2 & Hc2 & Hcache2 & Hruns2).
  exists w2. split; [|done].
  unfold _startup. unfold mbind at 1. unfold M_bind at 1. rewrite Hcache.
  cbv beta iota. unfold mbind at 1. unfold M_bind at 1. unfold gets.
  cbv beta iota. rewrite Hex. cbn [negb andb].
  unfold mbind at 1. unfold M_bind at 1.
  by rewrite (_build_catalog_failure _ _ _ _ Hload Hc2).
Qed.

(** Startup of the deployment without images and without a cache. *)
Lemma _startup_build_failure_witness :
  ∃ w',
    @_startup _ _ Demo.bare (Demo.world (state_init Demo.csv_path) Demo.no_cache)
    = (w', Raise (RuntimeError catalog_empty_msg)).
Proof.
  destruct (@_startup_build_failure _ _ Demo.bare
              (Demo.world (state_init Demo.csv_path) Demo.no_cache)
              (Demo.world (state_init Demo.csv_path) Demo.no_cache)
              (RuntimeError catalog_empty_msg))
    as (w' & Hrun & _); [vm_compute; reflexivity..|].
  by exists w'.
Defined.

(** Startup never builds when the cache loads: the index is the cache's. *)
Theorem _startup_cache_hit {F Image : Type} `{Collaborators F Image}
    (w w1 : World F) :
  _try_load_cache w = (w1, Ok true) → _startup w = (w1, Ok ()).
Proof.
  intros Hcache. unfold _startup. unfold mbind at 1. unfold M_bind at 1.
  rewrite Hcache. run_M. done.
Qed.

(** Startup over a cache that loads, with no catalog source at all. *)
Lemma _startup_cache_hit_witness :
  ∃ w1,
    @_startup _ _ (Demo.env [] argsort_stable)
      (Demo.world (state_init Demo.csv_path) Demo.cache_mismatch) = (w1, Ok ()) ∧
    length (catalog_rows (state w1)) = 2%nat.
Proof.
  destruct (_try_load_cache (Demo.world (state_init Demo.csv_path) Demo.cache_mismatch))
    as [w1 [[|]|e]] eqn:Hload; try (by vm_compute in Hload).
  exists w1. split.
  - exact (@_startup_cache_hit _ _ (Demo.env [] argsort_stable) _ w1 Hload).
  - vm_compute in Hload. injection Hload as <-. reflexivity.
Defined.

(** With no rows loaded and no catalog source to build from, a query
    reports every requested id as missing, in request order, and leaves
    the world alone. *)
Theorem catalog_query_no_catalog {F Image : Type} `{Collaborators F Image}
    (w : World F) (sku_ids : list string) :
  catalog_rows (state w) = [] →
  path_exists (catalog_path (state w)) = false →
  catalog_query sku_ids w = (w, Ok {| items := []; missing := sku_ids |}).
Proof.
  intros Hrows Hex. unfold catalog_query. run_M. rewrite Hrows, Hex. simpl.
  rewrite Hrows. unfold query_rows. rewrite query_fold. simpl. repeat f_equal.
  - induction sku_ids as [|sid rest IH]; [done|]. exact IH.
  - induction sku_ids as [|sid rest IH]; [done|].
    rewrite filter_cons, decide_True by apply lookup_empty. by rewrite IH.
Qed.

(** Two ids asked of a server that has neither rows nor a CSV. *)
Lemma catalog_query_no_catalog_witness :
  @catalog_query _ _ (Demo.env [] argsort_stable) ["sku-a"; "sku-b"]
    (Demo.world (state_init Demo.csv_path) Demo.no_cache)
  = (Demo.world (state_init Demo.csv_path) Demo.no_cache,
     Ok {| items := []; missing := ["sku-a"; "sku-b"] |}).
Proof.
  apply (@catalog_query_no_catalog _ _ (Demo.env [] argsort_stable)); reflexivity.
Defined.

(** ** More of recommend *)

Section RecommendMore.
Context {F Image : Type} `{ScalarOrder F} `{Collaborators F Image}.

#[local] Arguments upload_path : simpl never.
#[local] Arguments path_stem : simpl never.
#[local] Arguments path_name : simpl never.
#[local] Arguments String.append : simpl never.

Lemma catalog_ready_true (s : State F) :
  catalog_ready s = true ↔ is_Some (img_embs s) ∧ is_Some (txt_embs s).
Proof.
  unfold catalog_ready. rewrite andb_true_iff, !bool_decide_eq_true. done.
Qed.

(** What [recommend] does once the guard has passed, in terms of the
    three steps that can raise. *)
Lemma recommend_steps filename content topk (alpha_img : F) (return_vis : bool)
    (w : World F) :
  catalog_ready (state w) = true →
  recommend filename content topk alpha_img return_vis w =
  match detect_instances content with
  | Raise e => (with_upload filename content w, Raise e)
  | Ok det =>
      match traverse (rank_instance (state w) topk alpha_img) det.2 with
      | Raise e => (with_upload filename content w, Raise e)
      | Ok results =>
          let img_path := upload_path (clock_ms w) filename in
          let url := "/runs/uploads/" +:+ path_name img_path in
          if return_vis && negb (bool_decide (results = []))
          then
            let vis_path := "runs/" +:+ path_stem img_path +:+ "_vis.jpg" in
            match draw_and_save det.1 results vis_path (with_upload filename content w) with
            | (w', Ok _) => (w', Ok (Resp200 url (Some ("/runs/" +:+ path_name vis_path)) results))
            | (w', Raise e) => (w', Raise e)
            end
          else (with_upload filename content w, Ok (Resp200 url None results))
      end
  end.
Proof.
  intros [[img Himg] [txt Htxt]]%catalog_ready_true.
  unfold recommend, with_upload. run_M. rewrite Himg, Htxt. simpl.
  rewrite lookup_insert_eq.
  destruct (detect_instances content) as [[pil insts]|e]; simpl; [|done].
  destruct (traverse _ insts) as [results|e]; simpl; [|done].
  destruct (return_vis && _); simpl; [|done].
  by destruct (draw_and_save _ _ _ _) as [w' [[]|e]].
Qed.

(** With [topk = 0] every instance of a populated index gets the empty
    list and no best match. *)
Lemma rank_instance_zero (s : State F) (N D : nat) (alpha_img : F)
    (insts : list (DetInstance F Image)) :
  populated s N D →
  Forall (λ inst, ∃ emb, encode_image (crop inst) = Ok emb ∧ length emb = D) insts →
  traverse (rank_instance s 0 alpha_img) insts = Ok (map unranked insts).
Proof.
  intros Hpop. induction 1 as [|inst insts (emb & Henc & Hemb) _ IH]; simpl; [done|].
  rewrite IH. unfold rank_instance at 1. rewrite Henc. simpl.
  destruct (score_of_populated s N D emb alpha_img Hpop Hemb) as (score & -> & _).
  simpl. done.
Qed.
End RecommendMore.





(** [recommend] answers "Catalog not ready" exactly when [health] reports
    [catalog_ready] false. *)
Theorem recommend_not_ready_iff {F Image : Type} `{Scalar F}
    `{Collaborators F Image} filename content topk (alpha_img : F)
    (return_vis : bool) (w : World F) :
  (∃ w' msg, recommend filename content topk alpha_img return_vis w
               = (w', Ok (Resp400 msg))) ↔
  catalog_ready (state w) = false.
Proof.
  split.
  - intros (w' & msg & Hrun). destruct (catalog_ready (state w)) eqn:Hready; [|done].
    rewrite recommend_steps in Hrun by done.
    destruct (detect_instances content) as [det|e]; [|done].
    destruct (traverse _ _) as [results|e]; [|done]. simpl in Hrun.
    destruct (return_vis && _); [|done].
    by destruct (draw_and_save _ _ _ _) as [w2 [[]|e]].
  - intros Hnot. exists w, not_ready_msg. apply recommend_not_ready.
    unfold catalog_ready in Hnot. apply andb_false_iff in Hnot as [Hn|Hn];
      apply bool_decide_eq_false in Hn; [left|right];
      by apply eq_None_not_Some.
Qed.

(** For a negative [k] the ranked list of an instance is the ranking of
    the whole index without its last [-k] rows: it has [N + k] entries, or
    none when [-k >= N]. *)
Theorem rank_negative_k {F Image : Type} `{ScalarOrder F} `{Collaborators F Image}
    (s : State F) (N D : nat) (inst : DetInstance F Image) (emb : list F)
    (alpha_img : F) (k : Z) :
  populated s N D →
  encode_image (crop inst) = Ok emb → length emb = D →
  (∀ score, score_of s emb alpha_img = Ok score →
     is_argsort (map fneg score) (argsort (map fneg score))) →
  k < 0 →
  ∃ score full r,
    score_of s emb alpha_img = Ok score ∧
    rank (catalog_rows s) score (Z.of_nat N) = Ok full ∧
    rank_instance s k alpha_img inst = Ok r ∧
    top_k r = take (N - Z.to_nat (- k)) full ∧
    length (top_k r) = (N - Z.to_nat (- k))%nat ∧
    descending (top_k r).
Proof.
  intros Hpop Henc Hemb Hsort Hk.
  destruct (score_of_populated s N D emb alpha_img Hpop Hemb) as (score & Hscore & Hlen).
  specialize (Hsort score Hscore).
  destruct (full_ranking s N D emb alpha_img score Hpop Hlen Hsort)
    as (full & Hfull & Hlenf & Hdesc & Hall).
  destruct (Hall k) as (n & Hrank & _ & Hn). specialize (Hn Hk). subst n.
  destruct (Hall (Z.of_nat N)) as (n & HrankN & Hn & _).
  rewrite Hn, Nat2Z.id, take_ge in HrankN by lia.
  exists score, full. eexists. split_and!; [done|done| | | |].
  - unfold rank_instance. rewrite Henc. simpl. rewrite Hscore. simpl.
    rewrite Hrank. simpl. reflexivity.
  - reflexivity.
  - simpl. rewrite length_take. lia.
  - simpl. by apply descending_take.
Qed.

(** [topk = -2] on the three rows of the small deployment. *)
Lemma rank_negative_k_witness :
  ∃ r,
    @rank_instance _ _ _ Demo.full Demo.state_abc (-2) Demo.alpha Demo.inst = Ok r ∧
    length (top_k r) = 1%nat.
Proof.
  destruct (@rank_negative_k _ _ _ demo_order Demo.full Demo.state_abc 3 2 Demo.inst
              Demo.query Demo.alpha (-2))
    as (score & full & r & _ & _ & Hr & _ & Hlen & _).
  - eexists _, _. split_and!; reflexivity.
  - reflexivity.
  - reflexivity.
  - intros score Hscore. vm_compute in Hscore. injection Hscore as <-.
    apply (@bool_decide_unpack _ (is_argsort_dec _ _)). vm_compute. exact I.
  - lia.
  - exists r. split; [exact Hr|exact Hlen].
Defined.

(** ** More of load_catalog *)

Ltac by_decide :=
  match goal with
  | |- ?P => apply (@bool_decide_unpack P _); vm_compute; exact I
  end.

(** A CSV that lacks one of the four required columns (or has no header
    at all) is rejected with a RuntimeError, whatever its lines hold. *)
Theorem load_catalog_missing_column {F Image : Type} `{Collaborators F Image}
    csv_path (t : csv_table) (k : string) :
  read_csv csv_path = Ok t →
  k ∈ required → k ∉ fieldnames t →
  ∃ msg, @load_catalog F Image _ csv_path = Raise (RuntimeError msg).
Proof.
  intros Hread Hk Hnot. unfold load_catalog. rewrite Hread. simpl.
  case_bool_decide; [by eexists|].
  destruct (filter _ required) as [|k' ks] eqn:Hf; simpl; [|by eexists].
  exfalso. assert (k ∈ filter (λ k, k ∉ fieldnames t) required) as Hin
    by (by apply list_elem_of_filter).
  rewrite Hf in Hin. by apply not_elem_of_nil in Hin.
Qed.

(** A CSV without the brand column. *)
Lemma load_catalog_missing_column_witness :
  ∃ msg,
    @load_catalog _ _ (Demo.env_of_table
        {| fieldnames := ["sku_id"; "title"; "image_path"]; records := [] |})
      Demo.csv_path = Raise (RuntimeError msg).
Proof.
  eapply (@load_catalog_missing_column _ _ _ Demo.csv_path _ "brand").
  - reflexivity.
  - by_decide.
  - by_decide.
Defined.

Section LoadCatalogErrors.
Context {F Image : Type} `{Scalar F} `{Collaborators F Image}.

Lemma load_catalog_loop_raises csv_path (rows_csv : list csv_row) (row : csv_row)
    (acc : build_acc F) :
  row ∈ rows_csv →
  (∀ acc', ∃ e, load_catalog_step csv_path acc' row = Raise e) →
  ∃ e, load_catalog_loop csv_path acc rows_csv = Raise e.
Proof.
  intros Hin Hstep. revert acc.
  induction rows_csv as [|r rest IH]; intros acc; [by apply not_elem_of_nil in Hin|].
  simpl. apply elem_of_cons in Hin as [<-|Hin].
  - destruct (Hstep acc) as [e ->]. by exists e.
  - destruct (load_catalog_step csv_path acc r) as [acc1|e]; simpl; [|by exists e].
    by apply IH.
Qed.
End LoadCatalogErrors.

(** Unlike a missing image, which only skips its line, an image that is
    there but cannot be opened, or whose image or text the encoder
    rejects, makes the whole build raise: there is no catalog of the
    other lines. *)
Theorem load_catalog_unreadable_image {F Image : Type} `{Scalar F}
    `{Collaborators F Image} csv_path (t : csv_table) (row : csv_row) :
  read_csv csv_path = Ok t →
  row ∈ records t →
  resolvable csv_path row = true →
  (∀ pil e_img e_txt,
     image_open (resolved_path csv_path row) = Ok pil →
     encode_image pil = Ok e_img →
     encode_text (row_text row) = Ok e_txt → False) →
  ∃ e, load_catalog csv_path = Raise e.
Proof.
  intros Hread Hin Hres Hbad. unfold load_catalog. rewrite Hread. simpl.
  case_bool_decide; [by eexists|].
  destruct (negb _); [by eexists|].
  destruct (load_catalog_loop_raises csv_path (records t) row acc_empty Hin)
    as [e ->]; [|by exists e].
  intros acc'. unfold load_catalog_step.
  unfold resolvable, resolved_path in Hres. rewrite Hres. simpl.
  unfold resolved_path, row_text in Hbad.
  destruct (image_open _) as [pil|e] eqn:Hopen; simpl; [|by eexists].
  destruct (encode_image pil) as [e_img|e] eqn:Himg; simpl; [|by eexists].
  destruct (encode_text _) as [e_txt|e] eqn:Htxt; simpl; [|by eexists].
  exfalso. by eapply Hbad.
Qed.

(** The deployment with an images/b.jpg that exists and is not an image. *)
Lemma load_catalog_unreadable_image_witness :
  ∃ e, @load_catalog _ _ Demo.broken Demo.csv_path = Raise e.
Proof.
  apply (@load_catalog_unreadable_image _ _ Demo.demo_scalar Demo.broken
           Demo.csv_path Demo.table
           (Demo.line "sku-b" "Item B" "Brand B" "images/b.jpg")).
  - reflexivity.
  - apply list_elem_of_lookup. by exists 1%nat.
  - reflexivity.
  - intros pil e_img e_txt Hopen. by vm_compute in Hopen.
Defined.

(** ** cos_sim, its errors *)


(** ** detect_instances: the clipping of the boxes *)

Section DetectFacts.
Context {F Image : Type} (names : gmap Z string)
  (pil_crop : Image → Z * Z * Z * Z → Image).

Lemma detect_step_Some (W H : Z) (pil : Image) (b : YoloBox F)
    (i : DetInstance F Image) :
  detect_step names pil_crop W H pil b = Ok (Some i) →
  box_ok W H (bbox i) ∧ names !! cls b = Some (class i) ∧ conf i = box_conf b ∧
  ∃ x1 y1 x2 y2, bbox i = [x1; y1; x2; y2] ∧ crop i = pil_crop pil (x1, y1, x2, y2).
Proof.
  unfold detect_step. destruct (xyxy b) as [[[x1 y1] x2] y2].
  destruct (_ || _) eqn:Hdeg; [done|].
  destruct (names !! cls b) as [name|]; [|done].
  intros [= <-]. simpl. apply orb_false_iff in Hdeg as [Hx Hy].
  apply Z.leb_gt in Hx, Hy.
  split_and!; [|done|done|by eexists _, _, _, _].
  eexists _, _, _, _. split; [reflexivity|]. lia.
Qed.
End DetectFacts.

(** Every instance [detect_instances] returns has a box that lies inside
    the image and is not empty, [0 <= x1 < x2 <= W-1] and
    [0 <= y1 < y2 <= H-1], and there are at most as many instances as the
    detector returned boxes. *)
Theorem detect_boxes_clipped {F Image : Type} (names : gmap Z string)
    (pil_crop : Image → Z * Z * Z * Z → Image) (W H : Z) (pil : Image)
    (boxes : option (list (YoloBox F))) (insts : list (DetInstance F Image)) :
  detect_boxes names pil_crop W H pil boxes = Ok insts →
  Forall (λ i, box_ok W H (bbox i)) insts ∧
  (length insts ≤ length (default [] boxes))%nat.
Proof.
  destruct boxes as [bs|]; simpl; [|intros [= <-]; by split].
  revert insts. induction bs as [|b bs IH]; intros insts; simpl.
  - intros [= <-]. by split.
  - intros (r & Hstep & Hrest)%bind_Ok.
    apply bind_Ok in Hrest as (insts' & Hloop & [= <-]).
    destruct (IH insts' Hloop) as [Hall Hlen].
    destruct r as [i|]; [|split; [done|lia]].
    apply detect_step_Some in Hstep as [Hok _].
    split; [by constructor|simpl; lia].
Qed.

(** The box of the repository's unit test and one right of the image. *)
Lemma detect_boxes_clipped_witness :
  ∃ insts,
    detect_boxes (Image:=unit) {[0 := "chair"]} (λ _ _, ()) 10 10 () (Some Demo.boxes)
    = Ok insts ∧
    map bbox insts = [[1; 2; 8; 9]] ∧
    Forall (λ i, box_ok 10 10 (bbox i)) insts.
Proof.
  destruct (detect_boxes (Image:=unit) {[0 := "chair"]} (λ _ _, ()) 10 10 ()
              (Some Demo.boxes)) as [insts|e] eqn:Hrun; [|by vm_compute in Hrun].
  exists insts. split; [reflexivity|].
  destruct (detect_boxes_clipped _ _ _ _ _ _ _ Hrun) as [Hok _].
  split; [|exact Hok].
  vm_compute in Hrun. injection Hrun as <-. reflexivity.
Defined.

(** ** save_embeddings_to_db *)

Section EmbeddingsTableFacts.
Context {F : Type} (tobytes : list F → bytes).

Lemma foldl_insert_key_lookup {A V} (key : A → string) (val : A → V)
    (l : list A) (m : gmap string V) (k : string) :
  foldl (λ t a, <[key a := val a]> t) m l !! k =
  match last (filter (λ a, key a = k) l) with
  | Some a => Some (val a)
  | None => m !! k
  end.
Proof.
  revert m. induction l as [|a l IH]; intros m; simpl; [done|].
  rewrite IH, filter_cons. case_decide as Hk.
  - rewrite last_cons. destruct (last (filter _ l)); [done|].
    by rewrite <-Hk, lookup_insert_eq.
  - destruct (last (filter _ l)); [done|]. by rewrite lookup_insert_ne.
Qed.

Lemma filter_unique_key {A} (key : A → string) (l : list A) (i : nat) (x : A) :
  NoDup (map key l) → l !! i = Some x →
  filter (λ a, key a = key x) l = [x].
Proof.
  revert i. induction l as [|a l IH]; intros i Hnd Hi; [done|].
  simpl in Hnd. apply NoDup_cons in Hnd as [Hnotin Hnd].
  rewrite filter_cons. destruct i as [|i]; simpl in Hi.
  - injection Hi as ->. rewrite decide_True by done. f_equal.
    clear IH. induction l as [|b l IHl]; [done|].
    rewrite filter_cons. apply not_elem_of_cons in Hnotin as [Hne Hnotin].
    apply NoDup_cons in Hnd as [_ Hnd].
    rewrite decide_False by done. by apply IHl.
  - rewrite decide_False; [by eapply IH|].
    intros Heq. apply Hnotin. rewrite Heq.
    apply list_elem_of_fmap. exists x. split; [done|].
    by eapply list_elem_of_lookup_2.
Qed.
End EmbeddingsTableFacts.

(** Saving an index whose sku ids are distinct stores, under the sku id of
    each row [i], the bytes of row [i] of the image matrix and the
    matrix's width; every other key of the table keeps its entry. (A 1-D
    array in place of the matrix raises IndexError.) *)
Theorem save_embeddings_to_db_aligned {F : Type} (tobytes : list F → bytes)
    (table : gmap string (bytes * nat)) (rows : list CatalogRow)
    (dim : nat) (vecs : list (list F)) :
  length rows = length vecs →
  NoDup (map sku_id rows) →
  ∃ table',
    save_embeddings_to_db tobytes table rows (Mat dim vecs) = Ok table' ∧
    (∀ i r v, rows !! i = Some r → vecs !! i = Some v →
       table' !! sku_id r = Some (tobytes v, dim)) ∧
    (∀ k, k ∉ map sku_id rows → table' !! k = table !! k).
Proof.
  intros Hlen Hnd. eexists. split; [reflexivity|].
  assert ((zip rows vecs).*1 = rows) as Hfst by (apply fst_zip; lia).
  split.
  - intros i r v Hr Hv.
    rewrite (foldl_insert_key_lookup (λ rv, sku_id rv.1) (λ rv, (tobytes rv.2, dim))).
    assert (zip rows vecs !! i = Some (r, v)) as Hz.
    { rewrite lookup_zip_with. rewrite Hr. simpl. by rewrite Hv. }
    pose proof (filter_unique_key (λ rv : CatalogRow * list F, sku_id rv.1)
                  (zip rows vecs) i (r, v)) as Hf.
    simpl in Hf. rewrite Hf; [done| |done].
    replace (map (λ rv : CatalogRow * list F, sku_id rv.1) (zip rows vecs))
      with (map sku_id ((zip rows vecs).*1)) by (by rewrite <-list_fmap_compose).
    by rewrite Hfst.
  - intros k Hk.
    rewrite (foldl_insert_key_lookup (λ rv, sku_id rv.1) (λ rv, (tobytes rv.2, dim))).
    destruct (last _) as [[r v]|] eqn:Hlast; [|done].
    exfalso. apply Hk. apply last_Some_elem_of, list_elem_of_filter in Hlast as [<- Hin].
    apply list_elem_of_fmap. exists r. split; [done|].
    rewrite <-Hfst. apply list_elem_of_fmap. by exists (r, v).
Qed.

(** Two rows saved into a table that already holds another product. *)
Lemma save_embeddings_to_db_aligned_witness :
  ∃ table',
    save_embeddings_to_db (λ v : list Z, map (λ _, Byte.x00) v)
      {[ "sku-z" := ([Byte.x01], 1%nat) ]} [Demo.row_a; Demo.row_b]
      (Mat 2 [[1; 0]; [0; 1]]) = Ok table' ∧
    table' !! "sku-b" = Some ([Byte.x00; Byte.x00], 2%nat) ∧
    table' !! "sku-z" = Some ([Byte.x01], 1%nat).
Proof.
  destruct (save_embeddings_to_db_aligned (λ v : list Z, map (λ _, Byte.x00) v)
              {[ "sku-z" := ([Byte.x01], 1%nat) ]} [Demo.row_a; Demo.row_b] 2
              [[1; 0]; [0; 1]])
    as (table' & Hrun & Hrows & Hother).
  - reflexivity.
  - by_decide.
  - exists table'. split_and!; [exact Hrun| |].
    + exact (Hrows 1%nat Demo.row_b [0; 1] eq_refl eq_refl).
    + etrans; [apply (Hother "sku-z"); by_decide|reflexivity].
Defined.

(** ** choose_text_field *)

Section ChooseTextField.

Lemma first_english_app (pre : list TextField) (item : TextField) (post : list TextField) :
  Forall (λ it, tagged_english it = false) pre →
  tagged_english item = true →
  first_english (pre ++ item :: post) = Some item.
Proof.
  induction 1 as [|it pre Hit _ IH]; intros Hen; simpl.
  - by rewrite Hen.
  - rewrite Hit. by apply IH.
Qed.

Lemma first_english_none (l : list TextField) :
  Forall (λ it, tagged_english it = false) l → first_english l = None.
Proof. induction 1 as [|it l Hit _ IH]; simpl; [done|]. by rewrite Hit. Qed.
End ChooseTextField.

(** [choose_text_field] returns the value of the first entry whose
    language tag starts with "en" in any letter case, whatever stands
    before it; when no entry is tagged so, the value of the first entry;
    the default for an empty list or for a chosen entry without value. *)
Theorem choose_text_field_spec (default : string) :
  choose_text_field [] default = default ∧
  (∀ pre item post,
     Forall (λ it, tagged_english it = false) pre →
     tagged_english item = true →
     choose_text_field (pre ++ item :: post) default = default_value_of item default) ∧
  (∀ first rest,
     Forall (λ it, tagged_english it = false) (first :: rest) →
     choose_text_field (first :: rest) default = default_value_of first default).
Proof.
  split_and!; [done| |].
  - intros pre item post Hpre Hen. unfold choose_text_field.
    rewrite (first_english_app pre item post Hpre Hen).
    by destruct pre.
  - intros first rest Hall. unfold choose_text_field.
    by rewrite (first_english_none _ Hall).
Qed.

(** The lists of the repository's unit tests. *)
Lemma choose_text_field_spec_witness :
  choose_text_field
    [ {| language_tag := Some "fr_FR"; value := Some "Bonjour" |};
      {| language_tag := Some "en_US"; value := Some "Hello" |} ] "" = "Hello" ∧
  choose_text_field
    [ {| language_tag := Some "es_ES"; value := Some "Hola" |};
      {| language_tag := Some "fr_FR"; value := Some "Salut" |} ] "Default" = "Hola".
Proof.
  split.
  - destruct (choose_text_field_spec "") as (_ & Hen & _).
    apply (Hen [ {| language_tag := Some "fr_FR"; value := Some "Bonjour" |} ]
               {| language_tag := Some "en_US"; value := Some "Hello" |} []);
      [by repeat constructor|reflexivity].
  - destruct (choose_text_field_spec "Default") as (_ & _ & Hfirst).
    apply (Hfirst {| language_tag := Some "es_ES"; value := Some "Hola" |}
                  [ {| language_tag := Some "fr_FR"; value := Some "Salut" |} ]).
    by repeat constructor.
Defined.

(** ** What a failed load or build leaves behind *)

(** A cache of which a file is missing: the load returns false and the
    world is as before. *)
Lemma _try_load_cache_unreadable_witness :
  _try_load_cache (Demo.world Demo.state_ab Demo.no_cache)
  = (Demo.world Demo.state_ab Demo.no_cache, Ok false).
Proof.
  apply (@_try_load_cache_unreadable _ (Demo.world Demo.state_ab Demo.no_cache)).
  left. intros npz. discriminate.
Defined.

(** When the CSV has its columns and none of its images resolves, a forced
    build raises "Catalog is empty" and leaves the index, the cache and
    the run directory untouched; so does an unforced build whose cache
    load has failed without touching the state. *)
Theorem _build_catalog_empty_keeps_world {F Image : Type} `{Collaborators F Image}
    csv_path (t : csv_table) (w : World F) :
  read_csv csv_path = Ok t →
  Forall (λ k, k ∈ fieldnames t) required →
  Forall (λ r, resolvable csv_path r = false) (records t) →
  _build_catalog csv_path true w = (w, Raise (RuntimeError catalog_empty_msg)) ∧
  (_try_load_cache w = (w, Ok false) →
   _build_catalog csv_path false w = (w, Raise (RuntimeError catalog_empty_msg))).
Proof.
  intros Hread Hcols Hskip.
  pose proof (load_catalog_all_skipped (F:=F) csv_path t Hread Hcols Hskip) as Hload.
  split.
  - by apply _build_catalog_forced_failure.
  - intros Hcache. by apply (_build_catalog_failure _ _ _ _ Hload Hcache).
Qed.

(** The deployment without images, rebuilt by force over an active index. *)
Lemma _build_catalog_empty_keeps_world_witness :
  @_build_catalog _ _ Demo.bare Demo.csv_path true
    (Demo.world Demo.state_ab Demo.cache_no_txt)
  = (Demo.world Demo.state_ab Demo.cache_no_txt,
     Raise (RuntimeError catalog_empty_msg)).
Proof.
  apply (@_build_catalog_empty_keeps_world _ _ Demo.bare Demo.csv_path Demo.table
           (Demo.world Demo.state_ab Demo.cache_no_txt)).
  - reflexivity.
  - repeat constructor; by_decide.
  - repeat constructor.
Defined.
